(** * FastPay: a shallow embedding of the payment backend and its properties

    The development follows the layout of the repository:

    - [py]               : what the code uses of the Python runtime (binary64
                           floats, [str] and [bytes], [hashlib] and [hmac]);
    - [models]           : [app/models.py], the ledger (accounts, transactions,
                           refunds);
    - [main]             : [app/main.py], the CRUD service over the simple
                           payment record;
    - [razorpay_service] : [app/services/razorpay_service.py];
    - [payments]         : [app/routers/payments.py], the gateway order router;
    - [webhooks]         : [app/routers/webhooks.py], the webhook ingestion
                           router;
    - [concurrent_debit] : [Account.debit] run by several callers at once;
    - [transaction_marks]: [PaymentTransaction.mark_completed] and
                           [mark_failed], over [pyjson] values;
    - [main_routes]      : the remaining routes of [app/main.py] and the
                           service as a sequence of requests;
    - [payments_webhook] : the gateway webhook of [app/routers/payments.py];
    - [payments_amounts] : [_to_paise], over [decimal];
    - [stripe_sender]    : the sender's side of the Stripe-style signature.

    Definitions come first; the properties of each component follow in the
    second half of the file. *)

From Stdlib Require Import ZArith String Ascii Strings.Byte List Floats.
From stdpp Require Import base option list gmap sorting.
Import ListNotations.

#[local] Set Warnings "-clear-no-such-hyp,-register-all".
#[local] Open Scope string_scope.
#[local] Open Scope Z_scope.
#[local] Open Scope list_scope.

(* ===================================================================== *)
(** * Part I: the embedding *)
(* ===================================================================== *)

(** ** The Python runtime, as far as the code relies on it *)

Module py.

(** A [str] is the list of its code points, [bytes] a list of bytes. *)
Abbreviation str := (list N) (only parsing).
Abbreviation bytes := (list Byte.byte) (only parsing).

(** A literal of the source. *)
Definition lit (s : string) : str := N_of_ascii <$> list_ascii_of_string s.

Inductive exception : Type :=
| ValueError
| TypeError
| OverflowError
| UnicodeEncodeError.

Inductive result (A : Type) : Type :=
| Val (a : A)
| Exc (e : exception).
Arguments Val {A} a.
Arguments Exc {A} e.

Definition exception_name (e : exception) : string :=
  match e with
  | ValueError => "ValueError"
  | TypeError => "TypeError"
  | OverflowError => "OverflowError"
  | UnicodeEncodeError => "UnicodeEncodeError"
  end.

(** *** [float]: IEEE 754 binary64 *)

(** [float(n)] for an [int], also implicit in [x - n] and [n / x]:
    rounds to nearest, ties to even; too large an [int] overflows. *)
Definition float_of_int (n : Z) : result float :=
  let f := SF2Prim (binary_normalize prec emax n 0 false) in
  if is_infinity f then Exc OverflowError else Val f.

(** [round(x)] without [ndigits]: the nearest [int], ties to even. *)
Definition round (x : float) : result Z :=
  match Prim2SF x with
  | S754_nan => Exc ValueError
  | S754_infinity _ => Exc OverflowError
  | S754_zero _ => Val 0
  | S754_finite s m e =>
      let n :=
        match e with
        | Zneg p =>
            let d := 2 ^ Zpos p in
            let q := Zpos m / d in
            match 2 * (Zpos m mod d) ?= d with
            | Lt => q
            | Gt => q + 1
            | Eq => if Z.even q then q else q + 1
            end
        | _ => Zpos m * 2 ^ e
        end in
      Val (if s then - n else n)
  end.

(** *** [str]: encoding, stripping, splitting, integers *)

(** [s.encode("utf-8")]; a lone surrogate cannot be encoded. *)
Definition utf8_char (c : N) : option (list N) :=
  if (c <? 0x80)%N then Some [c]
  else if (c <? 0x800)%N then
    Some [N.lor 0xC0 (N.shiftr c 6); N.lor 0x80 (N.land c 0x3F)]
  else if (0xD800 <=? c)%N && (c <=? 0xDFFF)%N then None
  else if (c <? 0x10000)%N then
    Some [N.lor 0xE0 (N.shiftr c 12); N.lor 0x80 (N.land (N.shiftr c 6) 0x3F);
          N.lor 0x80 (N.land c 0x3F)]
  else if (c <=? 0x10FFFF)%N then
    Some [N.lor 0xF0 (N.shiftr c 18); N.lor 0x80 (N.land (N.shiftr c 12) 0x3F);
          N.lor 0x80 (N.land (N.shiftr c 6) 0x3F); N.lor 0x80 (N.land c 0x3F)]
  else None.

Definition byte_of_N (n : N) : Byte.byte :=
  default Byte.x00 (Byte.of_N n).

Fixpoint encode_utf8 (s : str) : result bytes :=
  match s with
  | [] => Val []
  | c :: rest =>
      match utf8_char c, encode_utf8 rest with
      | Some bs, Val out => Val ((byte_of_N <$> bs) ++ out)
      | _, _ => Exc UnicodeEncodeError
      end
  end.

Definition is_ascii (s : str) : bool := forallb (λ c, (c <? 128)%N) s.

(** [str.isspace] of one code point *)
Definition isspace (c : N) : bool :=
  ((9 <=? c) && (c <=? 13) || (28 <=? c) && (c <=? 32) || (c =? 0x85) || (c =? 0xA0)
   || (c =? 0x1680) || (0x2000 <=? c) && (c <=? 0x200A) || (c =? 0x2028) || (c =? 0x2029)
   || (c =? 0x202F) || (c =? 0x205F) || (c =? 0x3000))%N.

Fixpoint lstrip (s : str) : str :=
  match s with
  | c :: rest => if isspace c then lstrip rest else s
  | [] => []
  end.

(** [s.strip()] *)
Definition strip (s : str) : str := reverse (lstrip (reverse (lstrip s))).

(** [s.split(sep)] for a separator of one code point *)
Fixpoint split (sep : N) (s : str) : list str :=
  match s with
  | [] => [[]]
  | c :: rest =>
      match split sep rest with
      | first :: others => if (c =? sep)%N then [] :: first :: others else (c :: first) :: others
      | [] => [[c]]
      end
  end.

(** [s.split(sep, 1)] when [sep in s]: what precedes the first separator
    and what follows it. *)
Fixpoint split_once (sep : N) (s : str) : option (str * str) :=
  match s with
  | [] => None
  | c :: rest =>
      if (c =? sep)%N then Some ([], rest)
      else match split_once sep rest with
           | Some (k, v) => Some (c :: k, v)
           | None => None
           end
  end.

(** The digits of [int(s)]: decimal digits, single underscores between
    them. *)
Fixpoint digits (acc : Z) (after_digit : bool) (s : str) : option Z :=
  match s with
  | [] => if after_digit then Some acc else None
  | c :: rest =>
      if (48 <=? c)%N && (c <=? 57)%N then digits (10 * acc + Z.of_N (c - 48)) true rest
      else if (c =? 95)%N && after_digit
           then match rest with
                | d :: _ => if (48 <=? d)%N && (d <=? 57)%N then digits acc false rest else None
                | [] => None
                end
           else None
  end.

(** [int(s)] in base ten: surrounding whitespace, an optional sign, digits. *)
Definition int (s : str) : result Z :=
  let signed :=
    match strip s with
    | 43%N :: rest => digits 0 false rest
    | 45%N :: rest => Z.opp <$> digits 0 false rest
    | rest => digits 0 false rest
    end in
  match signed with
  | Some n => Val n
  | None => Exc ValueError
  end.

(** [str(n)] for an [int] *)
Fixpoint pos_digits (fuel : nat) (n : Z) (acc : str) : str :=
  match fuel with
  | O => acc
  | S fuel =>
      let acc := Z.to_N (48 + n mod 10) :: acc in
      if n <? 10 then acc else pos_digits fuel (n / 10) acc
  end.

Definition str_of_int (n : Z) : str :=
  if n <? 0 then 45%N :: pos_digits (S (Z.to_nat (Z.log2 (- n)))) (- n) []
  else pos_digits (S (Z.to_nat (Z.log2 n))) n [].

(** [x > n] for a [float] and an [int]: the comparison is exact. *)
Definition float_gt_int (x : float) (n : Z) : bool :=
  match Prim2SF x with
  | S754_nan => false
  | S754_infinity s => negb s
  | S754_zero _ => n <? 0
  | S754_finite s m e =>
      let m := if s then Zneg m else Zpos m in
      match e with
      | Zneg p => n * 2 ^ Zpos p <? m
      | _ => n <? m * 2 ^ e
      end
  end.

(** *** [hashlib.sha256] and [hmac] *)

Definition add32 (a b : Z) : Z := Z.land (a + b) 0xFFFFFFFF.
Definition rotr (n x : Z) : Z :=
  Z.lor (Z.shiftr x n) (Z.land (Z.shiftl x (32 - n)) 0xFFFFFFFF).
Definition not32 (x : Z) : Z := Z.lxor x 0xFFFFFFFF.

Definition Ch (x y z : Z) : Z := Z.lxor (Z.land x y) (Z.land (not32 x) z).
Definition Maj (x y z : Z) : Z := Z.lxor (Z.lxor (Z.land x y) (Z.land x z)) (Z.land y z).
Definition Sigma0 (x : Z) : Z := Z.lxor (Z.lxor (rotr 2 x) (rotr 13 x)) (rotr 22 x).
Definition Sigma1 (x : Z) : Z := Z.lxor (Z.lxor (rotr 6 x) (rotr 11 x)) (rotr 25 x).
Definition sigma0 (x : Z) : Z := Z.lxor (Z.lxor (rotr 7 x) (rotr 18 x)) (Z.shiftr x 3).
Definition sigma1 (x : Z) : Z := Z.lxor (Z.lxor (rotr 17 x) (rotr 19 x)) (Z.shiftr x 10).

(** The constants of SHA-256 are the first 32 bits of the fractional parts
    of the cube roots (round constants) and of the square roots (initial
    hash value) of the first primes. *)
Definition is_prime (n : Z) : bool :=
  forallb (λ d, negb (n mod d =? 0)) (Z.of_nat <$> seq 2 (Z.to_nat n - 2)).

Definition primes (count : nat) : list Z :=
  take count (filter (λ n, is_prime n = true) (Z.of_nat <$> seq 2 400)).

(** The largest [r' ≥ r] with [r' ^ k ≤ n], found bit by bit. *)
Fixpoint root_from (k : Z) (bits : nat) (n r : Z) : Z :=
  match bits with
  | O => r
  | S b =>
      let r' := r + 2 ^ Z.of_nat b in
      root_from k b n (if r' ^ k <=? n then r' else r)
  end.

Definition fractional_bits (k p : Z) : Z :=
  Z.land (root_from k 48 (p * 2 ^ (32 * k)) 0) 0xFFFFFFFF.

Definition K256 : list Z := Eval vm_compute in fractional_bits 3 <$> primes 64.

Definition H256 : list Z := Eval vm_compute in fractional_bits 2 <$> primes 8.

(** The message followed by the bit 1, zeros up to 56 modulo 64 bytes, and
    the length in bits on 8 bytes. *)
Definition big_endian (width : nat) (n : Z) : list Z :=
  (λ i, Z.land (Z.shiftr n (8 * Z.of_nat i)) 0xFF) <$> reverse (seq 0 width).

Definition pad (msg : list Z) : list Z :=
  let l := Z.of_nat (length msg) in
  msg ++ [0x80] ++ replicate (Z.to_nat ((55 - l) mod 64)) 0 ++ big_endian 8 (8 * l).

Fixpoint words (fuel : nat) (bs : list Z) : list Z :=
  match fuel, bs with
  | S fuel, a :: b :: c :: d :: rest =>
      Z.lor (Z.shiftl a 24) (Z.lor (Z.shiftl b 16) (Z.lor (Z.shiftl c 8) d)) :: words fuel rest
  | _, _ => []
  end.

(** The message schedule, newest word first: [w] holds the words so far in
    reverse order. *)
Fixpoint schedule (n : nat) (w : list Z) : list Z :=
  match n with
  | O => w
  | S n =>
      match w with
      | w1 :: w2 :: _ =>
          let w7 := w !!! 6%nat in
          let w15 := w !!! 14%nat in
          let w16 := w !!! 15%nat in
          schedule n (add32 (add32 (sigma1 w2) w7) (add32 (sigma0 w15) w16) :: w)
      | _ => w
      end
  end.

Definition round256 (h : list Z) (kw : Z * Z) : list Z :=
  match h with
  | [a; b; c; d; e; f; g; hh] =>
      let t1 := add32 (add32 (add32 hh (Sigma1 e)) (add32 (Ch e f g) kw.1)) kw.2 in
      let t2 := add32 (Sigma0 a) (Maj a b c) in
      [add32 t1 t2; a; b; c; add32 d t1; e; f; g]
  | _ => h
  end.

Definition compress (h : list Z) (block : list Z) : list Z :=
  let w := reverse (schedule 48 (reverse (words 16 block))) in
  zip_with add32 h (foldl round256 h (zip K256 w)).

Fixpoint blocks (fuel : nat) (h : list Z) (bs : list Z) : list Z :=
  match fuel with
  | O => h
  | S fuel =>
      match bs with
      | [] => h
      | _ => blocks fuel (compress h (take 64 bs)) (drop 64 bs)
      end
  end.

(** [hashlib.sha256(msg).digest()], bytes as numbers *)
Definition sha256 (msg : list Z) : list Z :=
  let padded := pad msg in
  mjoin (big_endian 4 <$> blocks (length padded) H256 padded).

(** [hmac.new(key, msg, hashlib.sha256).digest()] *)
Definition hmac_sha256 (key msg : list Z) : list Z :=
  let key := if (64 <? length key)%nat then sha256 key else key in
  let key := key ++ replicate (64 - length key) 0 in
  sha256 ((Z.lxor 0x5c <$> key) ++ sha256 ((Z.lxor 0x36 <$> key) ++ msg)).

Definition hex_digit (n : Z) : N :=
  if n <? 10 then Z.to_N (48 + n) else Z.to_N (87 + n).

(** [bytes.hex()] *)
Definition hex (bs : list Z) : str :=
  mjoin ((λ b, [hex_digit (Z.shiftr b 4 mod 16); hex_digit (b mod 16)]) <$> bs).

Definition byte_values (bs : bytes) : list Z := (λ b, Z.of_N (Byte.to_N b)) <$> bs.

(** [hmac.new(key, msg, hashlib.sha256).hexdigest()] *)
Definition hmac_hexdigest (key msg : bytes) : str :=
  hex (hmac_sha256 (byte_values key) (byte_values msg)).

(** [hmac.compare_digest(a, b)] on two [str]: only ASCII can be compared. *)
Definition compare_digest (a b : str) : result bool :=
  if is_ascii a && is_ascii b then Val (bool_decide (a = b)) else Exc TypeError.

(** The bytes of a literal of the source. *)
Definition blit (s : string) : bytes := list_byte_of_string s.

End py.

(** ** [app/models.py]: the ledger domain model *)

Module models.

(** [DecimalField(max_digits=18, decimal_places=2)] values are kept as a
    count of hundredths: the amount [60.00] is [6000]. *)
Abbreviation Decimal := Z (only parsing).

(** Exceptions the ledger raises, or lets through from the ORM. *)
Inductive exn : Type :=
| ValueError (msg : string)
| DoesNotExist
| DatabaseError (msg : string).

Inductive outcome (A : Type) : Type :=
| Return (a : A)
| Raise (e : exn).
Arguments Return {A} a.
Arguments Raise {A} e.

(** [PaymentTransaction.STATUS_*] *)
Inductive Status : Type :=
| STATUS_PENDING
| STATUS_COMPLETED
| STATUS_FAILED
| STATUS_REFUNDED.

#[global] Instance Status_eq_dec : EqDecision Status.
Proof. solve_decision. Defined.

(** An [Account] instance held by the caller: its primary key and the
    balance it last read. *)
Record Account : Type := mkAccount {
  pk : Z;
  balance : Decimal
}.

Record PaymentTransaction : Type := mkTransaction {
  tx_id : N;
  from_account : option Z;
  to_account : option Z;
  tx_amount : Decimal;
  status : Status
}.

Record Refund : Type := mkRefund {
  refund_id : N;
  transaction_id : N;
  amount : Decimal;
  processed_at : option Z
}.

(** The persisted tables.  The account table keeps the [balance] column
    per primary key. *)
Record store : Type := mkStore {
  accounts : gmap Z Decimal;
  transactions : gmap N PaymentTransaction;
  refunds : gmap N Refund
}.

Definition set_accounts (f : gmap Z Decimal → gmap Z Decimal) (s : store) : store :=
  mkStore (f (accounts s)) (transactions s) (refunds s).
Definition set_transactions
    (f : gmap N PaymentTransaction → gmap N PaymentTransaction) (s : store) : store :=
  mkStore (accounts s) (f (transactions s)) (refunds s).
Definition set_refunds (f : gmap N Refund → gmap N Refund) (s : store) : store :=
  mkStore (accounts s) (transactions s) (f (refunds s)).

(** *** The database monad: state passing with exceptions *)

Definition DB (A : Type) : Type := store → outcome A * store.

Definition ret {A} (a : A) : DB A := λ s, (Return a, s).
Definition raise {A} (e : exn) : DB A := λ s, (Raise e, s).
Definition bind {A B} (m : DB A) (k : A → DB B) : DB B :=
  λ s, match m s with
       | (Return a, s') => k a s'
       | (Raise e, s') => (Raise e, s')
       end.

Notation "x <- m ;; k" := (bind m (λ x, k))
  (at level 100, m at next level, right associativity).
Notation "m ;;; k" := (bind m (λ _, k))
  (at level 100, right associativity).

(** [with transaction.atomic():] an exception leaving the block rolls the
    store back to its state on entry. *)
Definition atomic {A} (m : DB A) : DB A :=
  λ s, match m s with
       | (Return a, s') => (Return a, s')
       | (Raise e, _) => (Raise e, s)
       end.

(** [Account.objects.get(pk=...)], also with [select_for_update()]: within
    one thread of control the row lock does not change the value read. *)
Definition get_account (k : Z) : DB Decimal :=
  λ s, match accounts s !! k with
       | Some b => (Return b, s)
       | None => (Raise DoesNotExist, s)
       end.

(** [Account.objects.filter(pk=k).update(balance=F("balance") + d)]:
    a relative update; no row, no change. *)
Definition update_balance (k : Z) (d : Decimal) : DB unit :=
  λ s, (Return tt, set_accounts (alter (λ b, b + d) k) s).

(** [a.balance = F("balance") + d; a.save(update_fields=["balance"])]:
    as above, but [save] raises when no row was updated. *)
Definition save_balance (k : Z) (d : Decimal) : DB unit :=
  λ s, match accounts s !! k with
       | Some _ => (Return tt, set_accounts (alter (λ b, b + d) k) s)
       | None =>
           (Raise (DatabaseError "Save with update_fields did not affect any rows."), s)
       end.

(** [Account.credit] *)
Definition credit (self : Account) (amount : Decimal) : DB (Decimal * Account) :=
  if amount <? 0 then raise (ValueError "credit amount must be non-negative")
  else atomic (
    update_balance (pk self) amount ;;;
    b <- get_account (pk self) ;;          (* self.refresh_from_db(fields=["balance"]) *)
    ret (b, mkAccount (pk self) b)).

(** [Account.debit] *)
Definition debit (self : Account) (amount : Decimal) : DB (Decimal * Account) :=
  if amount <? 0 then raise (ValueError "debit amount must be non-negative")
  else atomic (
    a <- get_account (pk self) ;;
    if a <? amount then raise (ValueError "insufficient funds")
    else
      save_balance (pk self) (- amount) ;;;
      b <- get_account (pk self) ;;        (* a.refresh_from_db(fields=["balance"]) *)
      ret (b, mkAccount (pk self) b)).

(** *** Refunds *)

Definition get_transaction (k : N) : DB PaymentTransaction :=
  λ s, match transactions s !! k with
       | Some t => (Return t, s)
       | None => (Raise DoesNotExist, s)
       end.

(** [self.processed_at = Now(); self.save(update_fields=["processed_at"])] *)
Definition save_processed_at (k : N) (now : Z) : DB unit :=
  λ s, match refunds s !! k with
       | Some _ =>
           (Return tt,
            set_refunds (alter (λ r, mkRefund (refund_id r) (transaction_id r)
                                              (amount r) (Some now)) k) s)
       | None =>
           (Raise (DatabaseError "Save with update_fields did not affect any rows."), s)
       end.

(** [tx.save(update_fields=["status"])] *)
Definition save_status (k : N) (st : Status) : DB unit :=
  λ s, match transactions s !! k with
       | Some _ =>
           (Return tt,
            set_transactions (alter (λ t, mkTransaction (tx_id t) (from_account t)
                                            (to_account t) (tx_amount t) st) k) s)
       | None =>
           (Raise (DatabaseError "Save with update_fields did not affect any rows."), s)
       end.

(** [sum([r.amount for r in tx.refunds.all()])]: every refund row whose
    foreign key is the transaction. *)
Definition refunds_of (k : N) (tbl : gmap N Refund) : list Refund :=
  filter (λ r, transaction_id r = k) (snd <$> map_to_list tbl).

Definition sum (l : list Decimal) : Decimal := foldr Z.add 0 l.

Definition total_refunded (k : N) : DB Decimal :=
  λ s, (Return (sum (amount <$> refunds_of k (refunds s))), s).

(** [Refund.process]; [now] is the database clock read by [Now()]. *)
Definition process (self : Refund) (now : Z) : DB Refund :=
  tx <- get_transaction (transaction_id self) ;;
  if negb (bool_decide (status tx = STATUS_COMPLETED))
  then raise (ValueError "can only refund completed transactions")
  else atomic (
    let src := to_account tx in
    let dst := from_account tx in
    match dst with
    | None => raise (ValueError "original payer account not available for refund")
    | Some dst =>
      match src with
      | None => raise (ValueError "source account for refund not available")
      | Some src =>
          src_balance <- get_account src ;;
          if src_balance <? amount self
          then raise (ValueError "insufficient funds in source account to process refund")
          else
            save_balance src (- amount self) ;;;
            save_balance dst (amount self) ;;;
            save_processed_at (refund_id self) now ;;;
            total <- total_refunded (tx_id tx) ;;
            (if tx_amount tx <=? total
             then save_status (tx_id tx) STATUS_REFUNDED
             else ret tt) ;;;
            ret (mkRefund (refund_id self) (transaction_id self) (amount self) (Some now))
      end
    end).

(** *** Specification-side vocabulary for the ledger *)

(** The sum of the amounts of the refunds of a transaction whose processed
    timestamp is set. *)
Definition processed_total (k : N) (tbl : gmap N Refund) : Decimal :=
  sum (amount <$> filter (λ r, is_Some (processed_at r)) (refunds_of k tbl)).

(** A sequence of ledger calls on one account. *)
Inductive op : Type :=
| Credit (amount : Decimal)
| Debit (amount : Decimal).

Definition call (self : Account) (o : op) : DB (Decimal * Account) :=
  match o with
  | Credit a => credit self a
  | Debit a => debit self a
  end.

(** Runs the calls in order, the caller carrying the same instance along
    and going on after a failed call.  Returns, for each call, its outcome
    and the balance stored once it has finished. *)
Fixpoint run (self : Account) (ops : list op) (s : store)
    : list (op * outcome Decimal * option Decimal) * store :=
  match ops with
  | [] => ([], s)
  | o :: rest =>
      let '(r, s') := call self o s in
      let self' := match r with Return (_, a) => a | Raise _ => self end in
      let res := match r with Return (b, _) => Return b | Raise e => Raise e end in
      let '(tr, s'') := run self' rest s' in
      ((o, res, accounts s' !! pk self) :: tr, s'')
  end.


(** *** Sample ledgers *)

(** One account holding 100.00. *)
Definition one_account : store := mkStore {[ 1 := 10000 ]} ∅ ∅.

(** A completed payment of 100.00 from account 1 to account 2, with two
    refunds of 60.00 recorded against it, neither processed yet. *)
Definition refund_1 : Refund := mkRefund 1 7 6000 None.
Definition refund_2 : Refund := mkRefund 2 7 6000 None.
Definition two_refunds : store :=
  mkStore {[ 1 := 0; 2 := 20000 ]}
          {[ 7%N := mkTransaction 7 (Some 1) (Some 2) 10000 STATUS_COMPLETED ]}
          {[ 1%N := refund_1; 2%N := refund_2 ]}.

End models.

(** ** [app/main.py]: the CRUD service over the simple payment record *)

Module main.
Import py.

(** [class PaymentStatus(str)] *)
Module PaymentStatus.
Definition PENDING : str := lit "pending".
Definition COMPLETED : str := lit "completed".
Definition FAILED : str := lit "failed".
Definition REFUNDED : str := lit "refunded".
End PaymentStatus.

(** A row of the [payments] table; [created_at] in microseconds. *)
Module PaymentORM.
Record t : Type := mk {
  id : str;
  amount_cents : Z;
  currency : str;
  method : str;
  status : str;
  description : option str;
  created_at : Z
}.
End PaymentORM.

Module PaymentCreate.
Record t : Type := mk {
  amount : float;
  currency : str;
  method : str;
  description : option str
}.
End PaymentCreate.

Module PaymentUpdate.
Record t : Type := mk {
  description : option str;
  status : option str
}.
End PaymentUpdate.

Module PaymentRead.
Record t : Type := mk {
  id : str;
  amount : float;
  currency : str;
  method : str;
  status : str;
  description : option str;
  created_at : Z
}.
End PaymentRead.

(** One entry of a 422 response: the field and the constraint it broke,
    or the message of a [ValueError] raised by a validator. *)
Inductive error : Type :=
| not_gt (field : string) (bound : Z)
| not_ge (field : string) (bound : Z)
| not_le (field : string) (bound : Z)
| min_length (field : string) (limit : Z)
| max_length (field : string) (limit : Z)
| value_error (field : string) (msg : str).

(** What a route answers. *)
Inductive response (A : Type) : Type :=
| OK (status_code : Z) (body : A)
| HTTPException (status_code : Z) (detail : str)
| RequestValidationError (errors : list error)
| InternalServerError (e : string).
Arguments OK {A} status_code body.
Arguments HTTPException {A} status_code detail.
Arguments RequestValidationError {A} errors.
Arguments InternalServerError {A} e.

(** The table, by primary key. *)
Abbreviation table := (gmap (list N) PaymentORM.t) (only parsing).

Definition len (s : str) : Z := Z.of_nat (length s).

(** [PaymentORM -> PaymentRead], with [amount = amount_cents / 100.0] *)
Definition to_read (r : PaymentORM.t) : response PaymentRead.t :=
  match float_of_int (PaymentORM.amount_cents r) with
  | Exc e => InternalServerError (exception_name e)
  | Val c =>
      OK 200 (PaymentRead.mk (PaymentORM.id r) (c / 100)%float (PaymentORM.currency r)
                (PaymentORM.method r) (PaymentORM.status r) (PaymentORM.description r)
                (PaymentORM.created_at r))
  end.

Definition with_status {A} (code : Z) (r : response A) : response A :=
  match r with
  | OK _ b => OK code b
  | other => other
  end.

#[local] Set Warnings "-inexact-float".

(** [PaymentCreate.check_amount_precision]; the argument is
    [values.get("amount")]. *)
Definition check_amount_precision (amount : option float) : result (list error) :=
  match amount with
  | None => Val []
  | Some amount =>
      match round (amount * 100)%float with
      | Exc ValueError => Val [value_error "__root__" (lit "cannot convert float NaN to integer")]
      | Exc e => Exc e
      | Val cents =>
          match float_of_int cents with
          | Exc e => Exc e
          | Val c =>
              if (1e-6 <? abs (amount * 100 - c))%float
              then Val [value_error "__root__" (lit "amount must have at most 2 decimal places")]
              else Val []
          end
      end
  end.

Section service.
(** [str.lower] and [str.upper] *)
Variables lower upper : str → str.

(** Validation of the body of [POST /payments]: the field constraints in
    declaration order, then the root validator over the fields that
    passed. *)
Definition validate_amount (v : float) : list error + float :=
  if (0 <? v)%float then inr v else inl [not_gt "amount" 0].

Definition validate_currency (v : str) : list error + str :=
  if len v <? 3 then inl [min_length "currency" 3]
  else if 3 <? len v then inl [max_length "currency" 3]
  else inr (upper v).                                   (* upper_currency *)

Definition validate_method (v : str) : list error + str :=
  if len v <? 1 then inl [min_length "method" 1]
  else if 50 <? len v then inl [max_length "method" 50]
  else inr v.

Definition validate_description (v : option str) : list error + option str :=
  match v with
  | Some d => if 255 <? len d then inl [max_length "description" 255] else inr v
  | None => inr None
  end.

Definition errors_of {A} (v : list error + A) : list error :=
  match v with inl e => e | inr _ => [] end.

Definition value_of {A} (v : list error + A) : option A :=
  match v with inl _ => None | inr a => Some a end.

Definition validate_PaymentCreate (body : PaymentCreate.t)
    : result (list error + PaymentCreate.t) :=
  let a := validate_amount (PaymentCreate.amount body) in
  let c := validate_currency (PaymentCreate.currency body) in
  let m := validate_method (PaymentCreate.method body) in
  let d := validate_description (PaymentCreate.description body) in
  match check_amount_precision (value_of a) with
  | Exc e => Exc e
  | Val root =>
      match a, c, m, d, root with
      | inr a, inr c, inr m, inr d, [] => Val (inr (PaymentCreate.mk a c m d))
      | _, _, _, _, _ =>
          Val (inl (errors_of a ++ errors_of c ++ errors_of m ++ errors_of d ++ root))
      end
  end.

(** [db.add(orm); db.commit()]: the primary key is unique and the
    integer column holds 64 bits. *)
Definition insert_row (orm : PaymentORM.t) (db : table) : string + table :=
  if decide (is_Some (db !! PaymentORM.id orm)) then inl "IntegrityError"
  else if (PaymentORM.amount_cents orm <? - 2 ^ 63) || (2 ^ 63 <=? PaymentORM.amount_cents orm)
  then inl "OverflowError"
  else inr (<[PaymentORM.id orm := orm]> db).

(** [create_payment]; [payment_id] is [str(uuid4())] and [now] is
    [datetime.utcnow()]. *)
Definition create_payment (payload : PaymentCreate.t) (payment_id : str) (now : Z)
    (db : table) : response PaymentRead.t * table :=
  match round (PaymentCreate.amount payload * 100)%float with
  | Exc e => (InternalServerError (exception_name e), db)
  | Val amount_cents =>
      let orm := PaymentORM.mk payment_id amount_cents (PaymentCreate.currency payload)
                   (PaymentCreate.method payload) PaymentStatus.PENDING
                   (PaymentCreate.description payload) now in
      match insert_row orm db with
      | inl e => (InternalServerError e, db)
      | inr db' => (with_status 201 (to_read orm), db')
      end
  end.

(** [POST /payments]: the body is validated, then handed to
    [create_payment]. *)
Definition post_payments (body : PaymentCreate.t) (payment_id : str) (now : Z)
    (db : table) : response PaymentRead.t * table :=
  match validate_PaymentCreate body with
  | Exc e => (InternalServerError (exception_name e), db)
  | Val (inl errors) => (RequestValidationError errors, db)
  | Val (inr payload) => create_payment payload payment_id now db
  end.

(** [get_payment] *)
Definition get_payment (payment_id : str) (db : table) : response PaymentRead.t :=
  match db !! payment_id with
  | None => HTTPException 404 (lit "payment not found")
  | Some result => to_read result
  end.

(** [ORDER BY created_at DESC] *)
Definition newer_first (a b : PaymentORM.t) : Prop :=
  PaymentORM.created_at b ≤ PaymentORM.created_at a.

#[global] Instance newer_first_dec a b : Decision (newer_first a b).
Proof. unfold newer_first. apply _. Defined.

Definition all_or_error {A} (l : list (response A)) : response (list A) :=
  foldr (λ r acc,
           match r, acc with
           | OK _ x, OK c xs => OK c (x :: xs)
           | OK _ _, other => other
           | HTTPException c d, _ => HTTPException c d
           | RequestValidationError e, _ => RequestValidationError e
           | InternalServerError e, _ => InternalServerError e
           end) (OK 200 []) l.

(** The rows [list_payments] selects. *)
Definition select_payments (status : option str) (limit offset : Z) (db : table)
    : list PaymentORM.t :=
  let stmt := snd <$> map_to_list db in
  let stmt :=
    match status with
    | Some (c :: cs) => filter (λ r, PaymentORM.status r = lower (c :: cs)) stmt
    | _ => stmt
    end in
  take (Z.to_nat limit) (drop (Z.to_nat offset) (merge_sort newer_first stmt)).

(** [list_payments], behind the bounds declared by its [Query]
    parameters. *)
Definition list_payments (status : option str) (limit offset : Z) (db : table)
    : response (list PaymentRead.t) :=
  if limit <? 1 then RequestValidationError [not_ge "limit" 1]
  else if 100 <? limit then RequestValidationError [not_le "limit" 100]
  else if offset <? 0 then RequestValidationError [not_ge "offset" 0]
  else all_or_error (to_read <$> select_payments status limit offset db).

(** [PaymentUpdate.validate_status] *)
Definition validate_status (v : option str) : list error + option str :=
  match v with
  | None => inr None
  | Some v =>
      let v := lower v in
      let allowed := [PaymentStatus.PENDING; PaymentStatus.COMPLETED;
                      PaymentStatus.FAILED; PaymentStatus.REFUNDED] in
      if decide (v ∈ allowed) then inr (Some v)
      else inl [value_error "status"
                  (lit "status must be one of ['completed', 'failed', 'pending', 'refunded']")]
  end.

(** [allowed_transitions.get(current, set())] *)
Definition allowed_transitions (current : str) : list str :=
  if decide (current = PaymentStatus.PENDING)
  then [PaymentStatus.COMPLETED; PaymentStatus.FAILED; PaymentStatus.REFUNDED]
  else if decide (current = PaymentStatus.COMPLETED) then [PaymentStatus.REFUNDED]
  else if decide (current = PaymentStatus.FAILED) then []
  else if decide (current = PaymentStatus.REFUNDED) then []
  else [].

Definition set_description (d : option str) (r : PaymentORM.t) : PaymentORM.t :=
  PaymentORM.mk (PaymentORM.id r) (PaymentORM.amount_cents r) (PaymentORM.currency r)
    (PaymentORM.method r) (PaymentORM.status r) d (PaymentORM.created_at r).

Definition set_status (st : str) (r : PaymentORM.t) : PaymentORM.t :=
  PaymentORM.mk (PaymentORM.id r) (PaymentORM.amount_cents r) (PaymentORM.currency r)
    (PaymentORM.method r) st (PaymentORM.description r) (PaymentORM.created_at r).

(** [update_payment]; the payload has passed its validators.  A raised
    [HTTPException] ends the request before [db.commit()], so the table
    is as it was. *)
Definition update_payment (payment_id : str) (payload : PaymentUpdate.t) (db : table)
    : response PaymentRead.t * table :=
  match db !! payment_id with
  | None => (HTTPException 404 (lit "payment not found"), db)
  | Some result =>
      let result :=
        match PaymentUpdate.description payload with
        | Some d => set_description (Some d) result
        | None => result
        end in
      let checked : str + PaymentORM.t :=
        match PaymentUpdate.status payload with
        | Some st =>
            let current := PaymentORM.status result in
            if decide (st ∈ allowed_transitions current) then inr (set_status st result)
            else if decide (st ≠ current)
            then inl (lit "invalid status transition from " ++ current ++ lit " to " ++ st)
            else inr (set_status st result)
        | None => inr result
        end in
      match checked with
      | inl detail => (HTTPException 400 detail, db)
      | inr result => (to_read result, <[payment_id := result]> db)
      end
  end.

End service.

End main.

(** ** Specification-side vocabulary for the CRUD service *)

Module main_spec.
Import py main.

(** The transition table of the specification, as (from, to) pairs. *)
Definition transition_table : list (str * str) :=
  [ (PaymentStatus.PENDING, PaymentStatus.COMPLETED);
    (PaymentStatus.PENDING, PaymentStatus.FAILED);
    (PaymentStatus.PENDING, PaymentStatus.REFUNDED);
    (PaymentStatus.COMPLETED, PaymentStatus.REFUNDED) ].

Definition statuses : list str :=
  [ PaymentStatus.PENDING; PaymentStatus.COMPLETED;
    PaymentStatus.FAILED; PaymentStatus.REFUNDED ].

(** The update is permitted: a pair of the table, or no change. *)
Definition permitted (current requested : str) : Prop :=
  (current, requested) ∈ transition_table ∨ requested = current.

(** The row an accepted update writes. *)
Definition updated (row : PaymentORM.t) (payload : PaymentUpdate.t) : PaymentORM.t :=
  let row := match PaymentUpdate.description payload with
             | Some d => set_description (Some d) row
             | None => row
             end in
  match PaymentUpdate.status payload with
  | Some st => set_status st row
  | None => row
  end.

(** Sample rows: five payments created one second apart. *)
Definition sample_row (n : Z) (st : str) : PaymentORM.t :=
  PaymentORM.mk (lit "p" ++ [Z.to_N (48 + n)]) (1234 * n) (lit "USD") (lit "card") st None
    (1000000 * n).

Definition sample_table : gmap (list N) PaymentORM.t :=
  list_to_map ((λ r, (PaymentORM.id r, r)) <$>
    [ sample_row 1 PaymentStatus.PENDING; sample_row 2 PaymentStatus.COMPLETED;
      sample_row 3 PaymentStatus.PENDING; sample_row 4 PaymentStatus.PENDING;
      sample_row 5 PaymentStatus.REFUNDED ]).

(** [str.lower] on ASCII letters, the other code points left alone. *)
Definition ascii_lower (s : str) : str :=
  (λ c, if (65 <=? c)%N && (c <=? 90)%N then (c + 32)%N else c) <$> s.

Definition ascii_upper (s : str) : str :=
  (λ c, if (97 <=? c)%N && (c <=? 122)%N then (c - 32)%N else c) <$> s.

End main_spec.

Module precision_spec.
Import py main main_spec.

#[local] Set Warnings "-inexact-float".






Definition three_decimals : float := 12.345%float.

Definition body_of (amount : float) : PaymentCreate.t :=
  PaymentCreate.mk amount (lit "usd") (lit "card") None.

End precision_spec.

(** ** What a route of the two routers answers *)

Module fastapi.
Import py.

Inductive response (A : Type) : Type :=
| OK (body : A)
| HTTPException (status_code : Z) (detail : str)
| Unhandled (e : exception).
Arguments OK {A} body.
Arguments HTTPException {A} status_code detail.
Arguments Unhandled {A} e.

End fastapi.

(** ** [app/services/razorpay_service.py]: the gateway service wrapper *)

Module razorpay_service.
Import py.

(** [RazorpayService.verify_payment_signature]; [key_secret] is
    [self.key_secret]. *)
Definition verify_payment_signature (key_secret order_id payment_id signature : str)
    : result bool :=
  match encode_utf8 (order_id ++ lit "|" ++ payment_id) with
  | Exc e => Exc e
  | Val msg =>
      match encode_utf8 key_secret with
      | Exc e => Exc e
      | Val secret => compare_digest (hmac_hexdigest secret msg) signature
      end
  end.

End razorpay_service.

(** ** [app/routers/payments.py]: the gateway order router *)

Module payments.
Import py fastapi.

Module VerifyPaymentRequest.
Record t : Type := mk {
  razorpay_payment_id : str;
  razorpay_order_id : str;
  razorpay_signature : str
}.
End VerifyPaymentRequest.

Module VerifyPaymentResponse.
Record t : Type := mk {
  valid : bool;
  reason : option str
}.
End VerifyPaymentResponse.

(** [_verify_signature] *)
Definition _verify_signature (received_signature : str) (payload : bytes) (secret : str)
    : result bool :=
  match secret with
  | [] => Val false
  | _ =>
      match encode_utf8 secret with
      | Exc e => Exc e
      | Val key => compare_digest (hmac_hexdigest key payload) received_signature
      end
  end.

(** [verify_payment]; the first argument is the module-level
    [RAZORPAY_KEY_SECRET], [""] when the variable is not set. *)
Definition verify_payment (RAZORPAY_KEY_SECRET : str) (payload : VerifyPaymentRequest.t)
    : response VerifyPaymentResponse.t :=
  match RAZORPAY_KEY_SECRET with
  | [] => HTTPException 500 (lit "Razorpay secret not configured")
  | _ =>
      match encode_utf8 (VerifyPaymentRequest.razorpay_order_id payload ++ lit "|"
                           ++ VerifyPaymentRequest.razorpay_payment_id payload) with
      | Exc e => Unhandled e
      | Val message =>
          let attempt :=                                                     (* try: *)
            match encode_utf8 RAZORPAY_KEY_SECRET with
            | Exc e => Exc e
            | Val key =>
                let computed := hmac_hexdigest key message in
                match compare_digest computed (VerifyPaymentRequest.razorpay_signature payload)
                with
                | Exc e => Exc e
                | Val valid =>
                    if negb valid
                    then Val (VerifyPaymentResponse.mk false (Some (lit "signature_mismatch")))
                    else Val (VerifyPaymentResponse.mk true None)
                end
            end in
          match attempt with
          | Val r => OK r
          | Exc _ => HTTPException 500 (lit "Signature verification failed")  (* except Exception *)
          end
      end
  end.

End payments.

(** ** [app/routers/webhooks.py]: the webhook ingestion router *)

Module webhooks.
Import py.

(** The module-level configuration read from the environment. *)
Record settings : Type := mkSettings {
  STRIPE_SIGNING_SECRET : option (list N);
  WEBHOOK_SECRET : option (list N);
  TIMESTAMP_TOLERANCE_SECONDS : Z
}.

(** A header value as the framework hands it over: one code point per byte
    of the header line; absent headers read as [""] ([signature or ""]). *)
Definition header_str (h : option string) : str :=
  match h with
  | Some v => lit v
  | None => []
  end.

(** [_parse_stripe_signature_header] *)
Definition _parse_stripe_signature_header (header_value : str)
    : option (gmap (list N) (list N)) :=
  match header_value with
  | [] => None
  | _ =>
      Some (foldl (λ out p,
                     match split_once 61 p with              (* if "=" in p *)
                     | Some (k, v) => <[strip k := strip v]> out
                     | None => out
                     end)
                  ∅ (split 44 header_value))
  end.

(** [_verify_hmac_signature] *)
Definition _verify_hmac_signature (payload : bytes) (signature secret : str) : result bool :=
  match secret, signature with
  | [], _ => Val false
  | _, [] => Val false
  | _, _ =>
      match encode_utf8 secret with
      | Exc e => Exc e
      | Val key => compare_digest (hmac_hexdigest key payload) signature
      end
  end.

(** [_verify_stripe_signature]; [now] is [time.time()] and [tolerance] is
    [TIMESTAMP_TOLERANCE_SECONDS]. *)
Definition _verify_stripe_signature (now : float) (tolerance : Z)
    (payload : bytes) (header_value secret : str) : result bool :=
  match secret with
  | [] => Val true
  | _ =>
      match _parse_stripe_signature_header header_value with
      | None => Val false
      | Some parsed =>
          if decide (parsed = ∅) then Val false
          else
            match parsed !! lit "t", parsed !! lit "v1" with
            | Some t, Some v1 =>
                match int t with
                | Exc ValueError => Val false
                | Exc e => Exc e
                | Val timestamp =>
                    match float_of_int timestamp with
                    | Exc e => Exc e
                    | Val ts =>
                        if float_gt_int (abs (now - ts)) tolerance then Val false
                        else
                          match encode_utf8 (str_of_int timestamp) with
                          | Exc e => Exc e
                          | Val stamp =>
                              let signed_payload := stamp ++ blit "." ++ payload in
                              match encode_utf8 secret with
                              | Exc e => Exc e
                              | Val key =>
                                  compare_digest (hmac_hexdigest key signed_payload) v1
                              end
                          end
                    end
                end
            | _, _ => Val false
            end
      end
  end.

Section endpoints.
(** Parsed JSON, [request.json()] and [json.loads(raw_body.decode("utf-8"))];
    [None] stands for the exception either raises. *)
Variable json : Type.
Variable request_json : bytes → option json.
Variable json_loads_utf8 : bytes → option json.

(** What an endpoint does: it answers [{"received": True}] and hands the
    parsed body to a background task, or it raises. *)
Inductive answer : Type :=
| received (scheduled : json)
| raised (status_code : Z) (detail : str)
| unhandled (e : exception).

(** [stripe_webhook] *)
Definition stripe_webhook (cfg : settings) (now : float) (raw_body : bytes)
    (stripe_signature : option string) : answer :=
  let refusal : option answer :=
    match STRIPE_SIGNING_SECRET cfg with
    | Some (c :: cs) =>
        match _verify_stripe_signature now (TIMESTAMP_TOLERANCE_SECONDS cfg) raw_body
                (header_str stripe_signature) (c :: cs) with
        | Exc e => Some (unhandled e)
        | Val false => Some (raised 400 (lit "Invalid signature"))
        | Val true => None
        end
    | _ => None
    end in
  match refusal with
  | Some a => a
  | None =>
      match request_json raw_body with
      | None => raised 400 (lit "Invalid JSON")
      | Some event => received event
      end
  end.

(** [generic_webhook] *)
Definition generic_webhook (cfg : settings) (raw_body : bytes) (signature : option string)
    : answer :=
  let refusal : option answer :=
    match WEBHOOK_SECRET cfg with
    | Some (c :: cs) =>
        match _verify_hmac_signature raw_body (header_str signature) (c :: cs) with
        | Exc e => Some (unhandled e)
        | Val false => Some (raised 400 (lit "Invalid signature"))
        | Val true => None
        end
    | _ => None
    end in
  match refusal with
  | Some a => a
  | None =>
      match json_loads_utf8 raw_body with
      | None => raised 400 (lit "Invalid JSON")
      | Some payload => received payload
      end
  end.

End endpoints.

Arguments received {json} scheduled.
Arguments raised {json} status_code detail.
Arguments unhandled {json} e.

End webhooks.

(** ** Specification-side vocabulary for the two routers *)

Module signature_spec.
Import py payments webhooks.

(** The signature the gateway expects for an order and a payment: the hex
    HMAC-SHA256 of the UTF-8 bytes of ["{order_id}|{payment_id}"]. *)
Definition expected_signature (key : bytes) (order_id payment_id : str) : result str :=
  match encode_utf8 (order_id ++ lit "|" ++ payment_id) with
  | Val message => Val (hmac_hexdigest key message)
  | Exc e => Exc e
  end.

(** The Stripe-Signature header passes: it parses to pairs with a numeric
    [t] and a [v1], the clock is within the tolerance of [t], and [v1] is
    the hex HMAC-SHA256 of ["{t}.{raw body}"] under the secret. *)
Definition stripe_signature_passes (secret : str) (now : float) (tolerance : Z)
    (raw_body : bytes) (header : option string) : Prop :=
  ∃ parsed t v1 timestamp ts stamp key,
    _parse_stripe_signature_header (header_str header) = Some parsed
    ∧ parsed !! lit "t" = Some t ∧ parsed !! lit "v1" = Some v1
    ∧ int t = Val timestamp
    ∧ float_of_int timestamp = Val ts
    ∧ float_gt_int (abs (now - ts)) tolerance = false
    ∧ encode_utf8 (str_of_int timestamp) = Val stamp
    ∧ encode_utf8 secret = Val key
    ∧ v1 = hmac_hexdigest key (stamp ++ blit "." ++ raw_body).

(** A signing secret is configured: the variable is set and not empty. *)
Definition configured (secret : option (list N)) : Prop :=
  ∃ c cs, secret = Some (c :: cs).

(** Sample requests. *)
Definition order_1 : VerifyPaymentRequest.t :=
  VerifyPaymentRequest.mk (lit "pay_1") (lit "order_1")
    (lit "44422d618d76e6e81c5f002f4d5108385750b52eb8db4e9c7a4231ddfac02840").

Definition order_1_accented : VerifyPaymentRequest.t :=
  VerifyPaymentRequest.mk (lit "pay_1") (lit "order_1") [233%N].

Definition stripe_settings : settings :=
  mkSettings (Some (lit "whsec")) (Some (lit "generic")) 300.

(** A stand-in for the JSON parser: it knows the empty object only. *)
Definition only_empty_object (body : bytes) : option unit :=
  if decide (byte_values body = [123; 125]) then Some tt else None.

#[local] Set Warnings "-inexact-float".
Definition clock : float := 1700000100.25%float.

Definition stripe_header : string :=
  "t=1700000000, v1=7d44587dddbaf4c7f70fef20f48cd594834ffea1641e3ac227b84408298738af".

End signature_spec.

(** ** [Account.debit] under concurrent callers *)

(** Several callers run [Account.debit] on the same account row, each in a
    transaction of its own; a scheduler interleaves their statements.
    [select_for_update()] takes the exclusive lock of the row, or waits while
    another transaction holds it; the lock is given up when the transaction
    ends, by [COMMIT] at the end of the [atomic] block or by the rollback an
    exception causes. *)

Module concurrent_debit.

(** Where a caller stands in [debit]. *)
Inductive pc : Type :=
| Called                      (* about to test [amount < 0] *)
| InAtomic                    (* inside [atomic], about to [select_for_update().get] *)
| Holding (a_balance : Z)     (* row locked, [a.balance] read *)
| Saved                       (* [a.save(update_fields=["balance"])] done *)
| Refreshed (a_balance : Z)   (* [a.refresh_from_db] done *)
| Returned (balance : Z)      (* committed, lock released *)
| Raised (msg : string).      (* rolled back, lock released *)

Record caller : Type := mkCaller {
  amount : Z;
  at_pc : pc
}.

Record system : Type := mkSystem {
  row_balance : Z;                (* the balance column of the row *)
  row_lock : option nat;          (* the caller holding the row lock *)
  callers : list caller
}.

Definition move (i : nat) (p : pc) (s : system) : list caller :=
  alter (λ c, mkCaller (amount c) p) i (callers s).

(** One statement of caller [i]; [None] when it waits for the lock, has
    finished, or does not exist. *)
Definition step (i : nat) (s : system) : option system :=
  match callers s !! i with
  | None => None
  | Some c =>
      match at_pc c with
      | Called =>
          if amount c <? 0
          then Some (mkSystem (row_balance s) (row_lock s)
                       (move i (Raised "debit amount must be non-negative") s))
          else Some (mkSystem (row_balance s) (row_lock s) (move i InAtomic s))
      | InAtomic =>
          match row_lock s with
          | Some _ => None
          | None => Some (mkSystem (row_balance s) (Some i) (move i (Holding (row_balance s)) s))
          end
      | Holding a =>
          if a <? amount c
          then Some (mkSystem (row_balance s) None (move i (Raised "insufficient funds") s))
          else Some (mkSystem (row_balance s - amount c) (row_lock s) (move i Saved s))
      | Saved => Some (mkSystem (row_balance s) (row_lock s) (move i (Refreshed (row_balance s)) s))
      | Refreshed b => Some (mkSystem (row_balance s) None (move i (Returned b) s))
      | Returned _ => None
      | Raised _ => None
      end
  end.

(** The system after a schedule: the scheduler names a caller at each turn;
    naming one that cannot move changes nothing. *)
Fixpoint run (schedule : list nat) (s : system) : system :=
  match schedule with
  | [] => s
  | i :: rest => run rest (default s (step i s))
  end.

Definition start (balance : Z) (amounts : list Z) : system :=
  mkSystem balance None ((λ a, mkCaller a Called) <$> amounts).

Definition finished (c : caller) : bool :=
  match at_pc c with
  | Returned _ | Raised _ => true
  | _ => false
  end.

Definition succeeded (c : caller) : bool :=
  match at_pc c with
  | Returned _ => true
  | _ => false
  end.

(** What a caller has taken from the row so far. *)
Definition debited (c : caller) : Z :=
  match at_pc c with
  | Saved | Refreshed _ | Returned _ => amount c
  | _ => 0
  end.

Definition holds_lock (c : caller) : bool :=
  match at_pc c with
  | Holding _ | Saved | Refreshed _ => true
  | _ => false
  end.

(** What is known of caller [i] in a reachable state, given the balance
    [b0] the row started with. *)
Definition caller_ok (b0 balance : Z) (lock : option nat) (i : nat) (c : caller) : Prop :=
  match at_pc c with
  | Called => lock ≠ Some i
  | InAtomic => lock ≠ Some i ∧ 0 ≤ amount c
  | Holding a => lock = Some i ∧ a = balance ∧ 0 ≤ amount c
  | Saved => lock = Some i ∧ 0 ≤ amount c ∧ balance ≤ b0 - amount c
  | Refreshed b => lock = Some i ∧ b = balance ∧ 0 ≤ amount c ∧ balance ≤ b0 - amount c
  | Returned b => lock ≠ Some i ∧ 0 ≤ amount c ∧ balance ≤ b ∧ b ≤ b0 - amount c
  | Raised msg =>
      lock ≠ Some i
      ∧ ((msg = "insufficient funds" ∧ 0 ≤ amount c ∧ balance < amount c)
         ∨ (msg = "debit amount must be non-negative" ∧ amount c < 0))
  end.

(** The invariant of the interleavings. *)
Record invariant (b0 : Z) (s : system) : Prop := mkInvariant {
  inv_balance : row_balance s = b0 - models.sum (debited <$> callers s);
  inv_bounds : 0 ≤ row_balance s ∧ row_balance s ≤ b0;
  inv_callers : ∀ i c, callers s !! i = Some c →
                  caller_ok b0 (row_balance s) (row_lock s) i c;
  inv_owner : ∀ i, row_lock s = Some i → is_Some (callers s !! i)
}.

(** The statements a caller still has to run, at most. *)
Definition remaining (c : caller) : nat :=
  match at_pc c with
  | Called => 5
  | InAtomic => 4
  | Holding _ => 3
  | Saved => 2
  | Refreshed _ => 1
  | Returned _ | Raised _ => 0
  end.

Definition work (s : system) : nat := sum_list (remaining <$> callers s).

End concurrent_debit.

(** ** Further sample data *)

Module samples.
Import models.


End samples.

(** ** JSON values *)

Module pyjson.
Import py.

(** What [json.loads] returns and a [JSONField] holds.  An object keeps its
    keys in insertion order, each key once. *)
Inductive json : Type :=
| JNull
| JBool (b : bool)
| JInt (n : Z)
| JFloat (x : float)
| JString (s : list N)
| JArray (items : list json)
| JObject (fields : list (list N * json)).

(** [d.get(k)] *)
Fixpoint dict_get (k : str) (d : list (list N * json)) : option json :=
  match d with
  | [] => None
  | (k', v) :: rest => if decide (k' = k) then Some v else dict_get k rest
  end.

(** [d[k] = v]: an existing key keeps its place, a new one goes last. *)
Fixpoint dict_set (k : str) (v : json) (d : list (list N * json)) : list (list N * json) :=
  match d with
  | [] => [(k, v)]
  | (k', v') :: rest =>
      if decide (k' = k) then (k, v) :: rest else (k', v') :: dict_set k v rest
  end.

End pyjson.

(** ** [app/models.py]: [PaymentTransaction.mark_completed] and [mark_failed] *)

Module transaction_marks.
Import py pyjson models.

(** The columns of a transaction these two methods read and write; the
    same record is the instance in memory and the row in the table. *)
Record transaction : Type := mkTransaction {
  id : N;
  status : Status;
  completed_at : option Z;
  metadata : json
}.

Inductive error : Type :=
| AttributeError
| DatabaseError (msg : string).

(** [self.save(update_fields=[...])]: the named columns of the row take the
    values of the instance; it raises when there is no such row. *)
Definition save (self : transaction) (write : transaction → transaction → transaction)
    (tbl : gmap N transaction) : option error * gmap N transaction :=
  match tbl !! id self with
  | Some _ => (None, alter (write self) (id self) tbl)
  | None => (Some (DatabaseError "Save with update_fields did not affect any rows."), tbl)
  end.

Definition write_status_completed_at (self row : transaction) : transaction :=
  mkTransaction (id row) (status self) (completed_at self) (metadata row).

Definition write_status_metadata (self row : transaction) : transaction :=
  mkTransaction (id row) (status self) (completed_at row) (metadata self).

(** [PaymentTransaction.mark_completed]; [now] is the database clock that
    [Now()] reads.  Returns the exception raised, if any, the instance and
    the table. *)
Definition mark_completed (self : transaction) (now : Z) (tbl : gmap N transaction)
    : option error * transaction * gmap N transaction :=
  if decide (status self ≠ STATUS_COMPLETED) then
    let self := mkTransaction (id self) STATUS_COMPLETED (Some now) (metadata self) in
    let '(e, tbl) := save self write_status_completed_at tbl in
    (e, self, tbl)
  else (None, self, tbl).

(** [self.metadata.setdefault("failure_reasons", []).append(reason)]: the
    metadata must be an object, and what it holds under the key a list. *)
Definition append_reason (reason : str) (metadata : json) : option json :=
  match metadata with
  | JObject d =>
      match dict_get (lit "failure_reasons") d with
      | None => Some (JObject (dict_set (lit "failure_reasons") (JArray [JString reason]) d))
      | Some (JArray l) =>
          Some (JObject (dict_set (lit "failure_reasons") (JArray (l ++ [JString reason])) d))
      | Some _ => None
      end
  | _ => None
  end.

(** [PaymentTransaction.mark_failed] *)
Definition mark_failed (self : transaction) (reason : str) (tbl : gmap N transaction)
    : option error * transaction * gmap N transaction :=
  let self := mkTransaction (id self) STATUS_FAILED (completed_at self) (metadata self) in
  let appended :=
    match reason with
    | [] => Some (metadata self)
    | _ => append_reason reason (metadata self)
    end in
  match appended with
  | None => (Some AttributeError, self, tbl)
  | Some m =>
      let self := mkTransaction (id self) (status self) (completed_at self) m in
      let '(e, tbl) := save self write_status_metadata tbl in
      (e, self, tbl)
  end.

(** The failure reasons a metadata object lists: none when the key is
    absent. *)
Definition failure_reasons (m : json) : option (list json) :=
  match m with
  | JObject d =>
      match dict_get (lit "failure_reasons") d with
      | None => Some []
      | Some (JArray l) => Some l
      | Some _ => None
      end
  | _ => None
  end.

(** [mark_failed] once per reason, the caller keeping the instance. *)
Fixpoint mark_failed_each (self : transaction) (reasons : list str)
    (tbl : gmap N transaction) : option error * transaction * gmap N transaction :=
  match reasons with
  | [] => (None, self, tbl)
  | r :: rest =>
      match mark_failed self r tbl with
      | (None, self, tbl) => mark_failed_each self rest tbl
      | failed => failed
      end
  end.

(** A completed payment with a note in its metadata. *)
Definition noted : transaction :=
  mkTransaction 7 STATUS_COMPLETED (Some 10) (JObject [(lit "note", JString (lit "gift"))]).

End transaction_marks.

(** ** [app/main.py]: the other routes, and the service as a whole *)

Module main_routes.
Import py main.

(** [delete_payment] *)
Definition delete_payment (payment_id : str) (db : gmap (list N) PaymentORM.t)
    : response unit * gmap (list N) PaymentORM.t :=
  match db !! payment_id with
  | None => (HTTPException 404 (lit "payment not found"), db)
  | Some _ => (OK 204 tt, delete payment_id db)
  end.

Section routes.
(** [str.lower] and [str.upper] *)
Variables lower upper : str → str.

(** Validation of the body of [PUT /payments/{id}]: the length bound of the
    description and [validate_status]. *)
Definition validate_PaymentUpdate (body : PaymentUpdate.t) : list error + PaymentUpdate.t :=
  let d := validate_description (PaymentUpdate.description body) in
  let st := validate_status lower (PaymentUpdate.status body) in
  match d, st with
  | inr d, inr st => inr (PaymentUpdate.mk d st)
  | _, _ => inl (errors_of d ++ errors_of st)
  end.

(** [PUT /payments/{id}]: the body is validated, then handed to
    [update_payment]. *)
Definition put_payments (payment_id : str) (body : PaymentUpdate.t)
    (db : gmap (list N) PaymentORM.t) : response PaymentRead.t * gmap (list N) PaymentORM.t :=
  match validate_PaymentUpdate body with
  | inl errors => (RequestValidationError errors, db)
  | inr payload => update_payment payment_id payload db
  end.

(** The requests that can change the table. *)
Inductive request : Type :=
| POST (body : PaymentCreate.t) (payment_id : str) (now : Z)
| PUT (payment_id : str) (body : PaymentUpdate.t)
| DELETE (payment_id : str).

(** The table after a request, and after a sequence of requests. *)
Definition handle (r : request) (db : gmap (list N) PaymentORM.t)
    : gmap (list N) PaymentORM.t :=
  match r with
  | POST body payment_id now => (post_payments upper body payment_id now db).2
  | PUT payment_id body => (put_payments payment_id body db).2
  | DELETE payment_id => (delete_payment payment_id db).2
  end.

Definition serve (requests : list request) (db : gmap (list N) PaymentORM.t)
    : gmap (list N) PaymentORM.t :=
  foldl (λ db r, handle r db) db requests.


End routes.

(** What every row of the table satisfies: it is stored under its
    identifier, its status is one of the four, and its amount is a
    non-negative number of cents that fits the integer column. *)
Definition well_formed (db : gmap (list N) PaymentORM.t) : Prop :=
  map_Forall (λ k row,
    PaymentORM.id row = k
    ∧ PaymentORM.status row ∈ main_spec.statuses
    ∧ 0 ≤ PaymentORM.amount_cents row < 2 ^ 63) db.

#[global] Instance well_formed_dec db : Decision (well_formed db).
Proof. unfold well_formed. apply _. Defined.

(** One step of the status state machine. *)
Definition transition (a b : str) : Prop := (a, b) ∈ main_spec.transition_table.

End main_routes.

(** ** [app/routers/payments.py]: the gateway webhook *)

Module payments_webhook.
Import py fastapi payments webhooks pyjson.

Section endpoint.
(** [request.json()]; [None] stands for the exception it raises. *)
Variable request_json : bytes → option json.

(** [razorpay_webhook]; the first argument is the module-level
    [RAZORPAY_WEBHOOK_SECRET], [""] when the variable is not set, and
    [x_razorpay_signature] is the header, read with the default [""].
    Inside the [try], [event.get] needs a JSON object; whatever is raised
    there, an [HTTPException] apart, becomes the 500 of the last branch. *)
Definition razorpay_webhook (RAZORPAY_WEBHOOK_SECRET : str)
    (x_razorpay_signature : option string) (body : bytes) : response json :=
  let signature := header_str x_razorpay_signature in
  match RAZORPAY_WEBHOOK_SECRET with
  | [] => HTTPException 500 (lit "Webhook secret not configured")
  | _ =>
      match signature with
      | [] => HTTPException 400 (lit "Missing signature header")
      | _ =>
          match _verify_signature signature body RAZORPAY_WEBHOOK_SECRET with
          | Exc _ => HTTPException 500 (lit "Webhook processing error")
          | Val false => HTTPException 400 (lit "Invalid signature")
          | Val true =>
              match request_json body with
              | Some (JObject event) => OK (JObject [(lit "status", JString (lit "ok"))])
              | Some _ | None => HTTPException 500 (lit "Webhook processing error")
              end
          end
      end
  end.

End endpoint.

(** A stand-in for the JSON parser: it knows [{}] and [[]] only. *)
Definition two_documents (body : bytes) : option json :=
  if decide (byte_values body = [123; 125]) then Some (JObject [])
  else if decide (byte_values body = [91; 93]) then Some (JArray [])
  else None.

End payments_webhook.

(** ** [decimal.Decimal] under the default context, and
    [app/routers/payments.py]: [_to_paise] *)

Module decimal.

(** A finite [Decimal]: [(-1)^sign × coefficient × 10^exponent], the
    coefficient not negative.  Request validation lets no other through. *)
Record t : Type := mk {
  sign : bool;
  coefficient : Z;
  exponent : Z
}.

(** The signals the default context traps. *)
Inductive signal : Type :=
| Overflow
| InvalidOperation.

Inductive result (A : Type) : Type :=
| Val (a : A)
| Raise (s : signal).
Arguments Val {A} a.
Arguments Raise {A} s.

(** The default context: [prec=28], [rounding=ROUND_HALF_EVEN],
    [Emin=-999999], [Emax=999999], [clamp=0]. *)
Definition prec : Z := 28.
Definition Emax : Z := 999999.
Definition Emin : Z := -999999.
Definition Etiny : Z := Emin - prec + 1.
Definition Etop : Z := Emax - prec + 1.

(** [len(self._int)]: the number of digits of the coefficient. *)
Fixpoint digits_from (fuel : nat) (n : Z) : Z :=
  match fuel with
  | O => 1
  | S fuel => if n <? 10 then 1 else 1 + digits_from fuel (n / 10)
  end.

Definition ndigits (n : Z) : Z := digits_from (S (Z.to_nat (Z.log2 n))) n.

(** The coefficient without its last [k] digits, rounded half to even. *)
Definition round_half_even (c k : Z) : Z :=
  let d := 10 ^ k in
  let q := c / d in
  match 2 * (c mod d) ?= d with
  | Lt => q
  | Gt => q + 1
  | Eq => if Z.even q then q else q + 1
  end.

(** [Decimal._fix]: the result of an operation rounded to the precision
    and checked against the exponent range. *)
Definition _fix (d : t) : result t :=
  if coefficient d =? 0
  then Val (mk (sign d) 0 (Z.min (Z.max (exponent d) Etiny) Emax))
  else
    let exp_min := ndigits (coefficient d) + exponent d - prec in
    if Etop <? exp_min then Raise Overflow
    else
      let exp_min := if exp_min <? Etiny then Etiny else exp_min in
      if exponent d <? exp_min then
        let coeff := round_half_even (coefficient d) (exp_min - exponent d) in
        let '(coeff, exp_min) :=
          if prec <? ndigits coeff then (coeff / 10, exp_min + 1) else (coeff, exp_min) in
        if Etop <? exp_min then Raise Overflow else Val (mk (sign d) coeff exp_min)
      else Val d.

(** [Decimal.__mul__] *)
Definition mul (a b : t) : result t :=
  _fix (mk (xorb (sign a) (sign b)) (coefficient a * coefficient b) (exponent a + exponent b)).

(** [Decimal._rescale] *)
Definition _rescale (d : t) (exp : Z) : t :=
  if coefficient d =? 0 then mk (sign d) 0 exp
  else if exp <=? exponent d
  then mk (sign d) (coefficient d * 10 ^ (exponent d - exp)) exp
  else mk (sign d) (round_half_even (coefficient d) (exp - exponent d)) exp.

Definition adjusted (d : t) : Z := exponent d + ndigits (coefficient d) - 1.

(** [Decimal.quantize]; [exp] is the second operand. *)
Definition quantize (d exp : t) : result t :=
  if negb ((Etiny <=? exponent exp) && (exponent exp <=? Emax)) then Raise InvalidOperation
  else if coefficient d =? 0 then _fix (mk (sign d) 0 (exponent exp))
  else if Emax <? adjusted d then Raise InvalidOperation
  else if prec <? adjusted d - exponent exp + 1 then Raise InvalidOperation
  else
    let ans := _rescale d (exponent exp) in
    if Emax <? adjusted ans then Raise InvalidOperation
    else if prec <? ndigits (coefficient ans) then Raise InvalidOperation
    else _fix ans.

(** [Decimal.__int__]: truncation towards zero. *)
Definition to_int (d : t) : Z :=
  let n := if 0 <=? exponent d then coefficient d * 10 ^ exponent d
           else coefficient d / 10 ^ (- exponent d) in
  if sign d then - n else n.

End decimal.

Module payments_amounts.
Import decimal.

(** [_to_paise] *)
Definition _to_paise (amount : decimal.t) : result Z :=
  match mul amount (mk false 100 0) with                        (* Decimal("100") *)
  | Raise s => Raise s
  | Val product =>
      match quantize product (mk false 1 0) with                (* Decimal("1") *)
      | Raise s => Raise s
      | Val paise => Val (to_int paise)
      end
  end.

(** The amounts [Decimal("100.50")] and [Decimal("0.125")]. *)
Definition hundred_fifty : decimal.t := mk false 10050 (- 2).
Definition an_eighth : decimal.t := mk false 125 (- 3).

End payments_amounts.

(** ** The sender of a Stripe-style webhook *)

Module stripe_sender.
Import py.

(** The header the scheme of [_verify_stripe_signature] expects from the
    sender: ["t=" + str(timestamp) + ",v1=" + HMAC_SHA256(key,
    str(timestamp) + "." + payload).hexdigest()]. *)
Definition signature_header (key : bytes) (timestamp : Z) (payload : bytes) : str :=
  let stamp := match encode_utf8 (str_of_int timestamp) with
               | Val stamp => stamp
               | Exc _ => []
               end in
  lit "t=" ++ str_of_int timestamp ++ lit ",v1="
    ++ hmac_hexdigest key (stamp ++ blit "." ++ payload).

(** A [str] of code points below 256 as the header line that carries it. *)
Definition header_line (s : str) : string :=
  string_of_list_ascii (ascii_of_N <$> s).

(** Decimal digits and the lowercase letters of hexadecimal. *)
Definition plain_char (c : N) : bool :=
  ((48 <=? c) && (c <=? 57) || (97 <=? c) && (c <=? 102))%N.

Definition plain (s : str) : bool := forallb plain_char s.

End stripe_sender.

(* ===================================================================== *)
(** * Part II: properties *)
(* ===================================================================== *)

(** ** The ledger: [Account.credit] and [Account.debit] *)

Section account_calls.
Import models.

Variables (self : Account) (s : store) (b : Decimal).
Hypothesis Hrow : accounts s !! pk self = Some b.

Lemma lookup_set_accounts_alter (d : Decimal) :
  accounts (set_accounts (alter (λ x, x + d) (pk self)) s) !! pk self = Some (b + d).
Proof using Hrow. cbn. by rewrite lookup_alter_eq, Hrow. Qed.

Lemma credit_accepted (amount : Decimal) :
  0 ≤ amount →
  credit self amount s =
    (Return (b + amount, mkAccount (pk self) (b + amount)),
     set_accounts (alter (λ x, x + amount) (pk self)) s).
Proof using Hrow.
  intros Hpos. unfold credit.
  destruct (Z.ltb_spec amount 0) as [|_]; [lia|].
  unfold atomic, bind, update_balance, get_account, ret.
  by rewrite lookup_set_accounts_alter.
Qed.

Lemma debit_accepted (amount : Decimal) :
  0 ≤ amount → amount ≤ b →
  debit self amount s =
    (Return (b - amount, mkAccount (pk self) (b - amount)),
     set_accounts (alter (λ x, x + - amount) (pk self)) s).
Proof using Hrow.
  intros Hpos Hle. unfold debit.
  destruct (Z.ltb_spec amount 0) as [|_]; [lia|].
  unfold atomic, bind, get_account, save_balance, raise, ret. rewrite Hrow.
  destruct (Z.ltb_spec b amount) as [|_]; [lia|].
  rewrite Hrow, lookup_set_accounts_alter.
  by replace (b + - amount) with (b - amount) by lia.
Qed.


End account_calls.

Section account_rejections.
Import models.



Lemma set_accounts_alter_zero (k : Z) (s : store) :
  set_accounts (alter (λ x, x + 0) k) s = s.
Proof.
  destruct s as [acc txs rfs]. unfold set_accounts; cbn. f_equal.
  apply map_eq; intros i. rewrite lookup_alter.
  case_decide; subst; [|done]. destruct (acc !! i); cbn; f_equal; lia.
Qed.

End account_rejections.

Section ledger_claims.
Import models.

(** C9. The insufficient-funds check of [Account.debit] is strict: with
    [0 ≤ amount ≤ balance] the debit succeeds, returns [balance - amount]
    and stores it; a debit of exactly the balance leaves zero; a debit or a
    credit of zero is accepted and changes nothing in the store. *)
Theorem debit_boundary_is_strict (self : Account) (s : store) (b amount : Decimal) :
  accounts s !! pk self = Some b → 0 ≤ amount → amount ≤ b →
  (∃ s', debit self amount s = (Return (b - amount, mkAccount (pk self) (b - amount)), s')
         ∧ accounts s' !! pk self = Some (b - amount))
  ∧ (∃ s', debit self b s = (Return (0, mkAccount (pk self) 0), s')
           ∧ accounts s' !! pk self = Some 0)
  ∧ debit self 0 s = (Return (b, mkAccount (pk self) b), s)
  ∧ credit self 0 s = (Return (b, mkAccount (pk self) b), s).
Proof.
  intros Hrow Hpos Hle. repeat split.
  - eexists; split; [by apply (debit_accepted _ _ _ Hrow)|].
    rewrite (lookup_set_accounts_alter _ _ _ Hrow). f_equal; lia.
  - eexists; split.
    + rewrite (debit_accepted _ _ _ Hrow b) by lia. by rewrite Z.sub_diag.
    + rewrite (lookup_set_accounts_alter _ _ _ Hrow). f_equal; lia.
  - rewrite (debit_accepted _ _ _ Hrow 0) by lia.
    change (- 0) with 0. rewrite set_accounts_alter_zero. by rewrite Z.sub_0_r.
  - rewrite (credit_accepted _ _ _ Hrow 0) by lia.
    rewrite set_accounts_alter_zero. by rewrite Z.add_0_r.
Qed.



End ledger_claims.

(** ** The ledger: [Refund.process] *)

Section refund_totals.
Import models.

#[global] Instance sum_perm : Proper ((≡ₚ) ==> (=)) sum.
Proof.
  intros l1 l2 Hp. unfold sum.
  induction Hp; cbn; [done|lia..].
Qed.

Lemma filter_all {A} (P : A → Prop) `{∀ x, Decision (P x)} (l : list A) :
  Forall P l → filter P l = l.
Proof.
  induction 1 as [|x l Hx _ IH]; [done|]. by rewrite filter_cons_True, IH.
Qed.

(** Stamping a refund does not change what the refunds of a transaction
    add up to. *)
Lemma total_alter_stamp (k rid : N) (now : Z) (tbl : gmap N Refund) :
  sum (amount <$> refunds_of k
         (alter (λ r, mkRefund (refund_id r) (transaction_id r) (amount r) (Some now)) rid tbl))
  = sum (amount <$> refunds_of k tbl).
Proof.
  unfold refunds_of.
  destruct (tbl !! rid) as [r|] eqn:Hr.
  - rewrite <- (insert_delete_id tbl rid r Hr) at 2.
    erewrite <- (insert_delete_id tbl rid r Hr) at 1.
    rewrite alter_insert_eq.
    rewrite !map_to_list_insert by apply lookup_delete_eq.
    cbn.
    destruct (decide (transaction_id r = k)); by cbn.
  - by rewrite alter_id by (intros x; rewrite Hr; done).
Qed.

End refund_totals.

Section refund_process.
Import models.

Variables (self : Refund) (now : Z) (s : store) (tx : PaymentTransaction).
Variables (src dst : Z) (bs bd : Decimal).
Hypothesis Hself : refunds s !! refund_id self = Some self.
Hypothesis Htx : transactions s !! transaction_id self = Some tx.
Hypothesis Hid : tx_id tx = transaction_id self.
Hypothesis Hstatus : status tx = STATUS_COMPLETED.
Hypothesis Hto : to_account tx = Some src.
Hypothesis Hfrom : from_account tx = Some dst.
Hypothesis Hsrc : accounts s !! src = Some bs.
Hypothesis Hdst : accounts s !! dst = Some bd.
Hypothesis Hfunds : amount self ≤ bs.

(** What the code does on the success path: the refund is stamped and the
    transaction becomes [REFUNDED] exactly when the amounts of all refunds
    recorded against it, processed or not, reach its amount. *)
Lemma process_flags_on_recorded_total :
  ∃ s', process self now s
        = (Return (mkRefund (refund_id self) (transaction_id self) (amount self) (Some now)), s')
    ∧ status <$> transactions s' !! tx_id tx
      = Some (if decide (tx_amount tx ≤ sum (amount <$> refunds_of (tx_id tx) (refunds s)))
              then STATUS_REFUNDED else STATUS_COMPLETED)
    ∧ refunds s'
      = alter (λ r, mkRefund (refund_id r) (transaction_id r) (amount r) (Some now))
          (refund_id self) (refunds s).
Proof using All.
  unfold process, bind at 1, get_transaction. rewrite Htx, Hstatus.
  rewrite <- Hid in Htx.
  rewrite bool_decide_eq_true_2 by done. cbn [negb].
  rewrite Hto, Hfrom.
  unfold atomic, bind, get_account, save_balance, save_processed_at, total_refunded,
    save_status, raise, ret.
  rewrite Hsrc. destruct (Z.ltb_spec bs (amount self)) as [|_]; [lia|].
  rewrite Hsrc. cbn [accounts set_accounts].
  assert (is_Some (alter (λ b, b + - amount self) src (accounts s) !! dst)) as [bd' ->].
  { rewrite lookup_alter. case_decide; subst; rewrite ?Hsrc, ?Hdst; by eexists. }
  cbn [refunds set_accounts set_refunds transactions]. rewrite Hself.
  cbn [refunds set_refunds]. rewrite total_alter_stamp. cbn [refunds set_accounts].
  destruct (Z.leb_spec (tx_amount tx) (sum (amount <$> refunds_of (tx_id tx) (refunds s))))
    as [Hle|Hlt].
  - cbn [transactions set_refunds set_accounts]. rewrite Htx.
    eexists; split; [done|]. cbn [transactions set_transactions].
    rewrite lookup_alter_eq. cbn [transactions set_refunds set_accounts].
    rewrite Htx. cbn. by rewrite decide_True by lia.
  - eexists; split; [done|]. cbn [transactions set_refunds set_accounts].
    rewrite Htx. cbn. rewrite Hstatus. by rewrite decide_False by lia.
Qed.

(** When every other refund of the transaction has been processed before,
    the recorded total is the processed total, and the transaction becomes
    [REFUNDED] exactly when the processed refunds reach its amount. *)
Lemma process_flags_on_processed_total :
  (∀ k r, refunds s !! k = Some r → transaction_id r = tx_id tx → k ≠ refund_id self →
          is_Some (processed_at r)) →
  ∃ s', process self now s
        = (Return (mkRefund (refund_id self) (transaction_id self) (amount self) (Some now)), s')
    ∧ status <$> transactions s' !! tx_id tx
      = Some (if decide (tx_amount tx ≤ processed_total (tx_id tx) (refunds s'))
              then STATUS_REFUNDED else STATUS_COMPLETED).
Proof using All.
  intros Hothers. destruct process_flags_on_recorded_total as (s' & Hrun & Hst & Hrefunds).
  exists s'. split; [done|].
  assert (processed_total (tx_id tx) (refunds s')
          = sum (amount <$> refunds_of (tx_id tx) (refunds s))) as ->; [|done].
  rewrite <- (total_alter_stamp (tx_id tx) (refund_id self) now (refunds s)), <- Hrefunds.
  unfold processed_total. do 2 f_equal. apply filter_all.
  apply Forall_forall. intros r Hr. unfold refunds_of in Hr.
  apply list_elem_of_filter in Hr as [Hk Hr].
  apply list_elem_of_fmap in Hr as ([k r'] & -> & Hr). cbn in *.
  apply elem_of_map_to_list in Hr. rewrite Hrefunds in Hr.
  destruct (decide (k = refund_id self)) as [->|Hne].
  - rewrite lookup_alter_eq, Hself in Hr. injection Hr as <-. by eexists.
  - rewrite lookup_alter_ne in Hr by done. by apply (Hothers k).
Qed.

End refund_process.

Section refund_claims.
Import models.

(** C1, at the input where the code departs from it.  A completed payment
    of 100.00 has two refunds of 60.00 recorded, none processed.  Processing
    the first succeeds and the transaction is already [REFUNDED], although
    the processed refunds add up to 60.00 only; the second refund can then
    no longer be processed. *)
Theorem process_counts_unprocessed_refunds :
  ∃ s', process refund_1 50 two_refunds = (Return (mkRefund 1 7 6000 (Some 50)), s')
    ∧ status <$> transactions s' !! 7%N = Some STATUS_REFUNDED
    ∧ tx_amount <$> transactions s' !! 7%N = Some 10000
    ∧ processed_total 7 (refunds s') = 6000
    ∧ process refund_2 51 s'
      = (Raise (ValueError "can only refund completed transactions"), s').
Proof.
  eexists. split; [vm_compute; reflexivity|].
  repeat split; vm_compute; reflexivity.
Qed.

End refund_claims.

Section ledger_witnesses.
Import models.

Lemma debit_boundary_is_strict_witness :
  accounts one_account !! 1 = Some 10000 ∧ 0 ≤ 6000 ∧ 6000 ≤ 10000 ∧
  ((∃ s', debit (mkAccount 1 10000) 6000 one_account
          = (Return (10000 - 6000, mkAccount 1 (10000 - 6000)), s')
          ∧ accounts s' !! 1 = Some (10000 - 6000))
   ∧ (∃ s', debit (mkAccount 1 10000) 10000 one_account = (Return (0, mkAccount 1 0), s')
            ∧ accounts s' !! 1 = Some 0)
   ∧ debit (mkAccount 1 10000) 0 one_account = (Return (10000, mkAccount 1 10000), one_account)
   ∧ credit (mkAccount 1 10000) 0 one_account = (Return (10000, mkAccount 1 10000), one_account)).
Proof.
  split; [reflexivity|]. split; [lia|]. split; [lia|].
  apply (debit_boundary_is_strict (mkAccount 1 10000) one_account 10000 6000);
    [reflexivity | lia | lia].
Defined.


End ledger_witnesses.

(** ** The CRUD service: status transitions *)

Section update_claims.
Import py main main_spec.

(** Membership in a list written out in full. *)
Ltac elem_of_literal :=
  repeat first [apply list_elem_of_here | apply list_elem_of_further].

(** The dictionary of [update_payment] is the table of the specification. *)
Lemma allowed_transitions_table (current requested : str) :
  requested ∈ allowed_transitions current ↔ (current, requested) ∈ transition_table.
Proof.
  unfold allowed_transitions, transition_table. split.
  - destruct (decide (current = PaymentStatus.PENDING)) as [->|_].
    { rewrite !elem_of_cons, elem_of_nil.
      intros [->|[->|[->|[]]]]; auto 10. }
    destruct (decide (current = PaymentStatus.COMPLETED)) as [->|_].
    { rewrite !elem_of_cons, elem_of_nil. intros [->|[]]; auto 10. }
    repeat destruct (decide _); intros H; by apply elem_of_nil in H.
  - rewrite !elem_of_cons, elem_of_nil.
    intros [H|[H|[H|[H|[]]]]]; apply pair_eq in H; destruct H as [-> ->];
      vm_compute; elem_of_literal.
Qed.

(** C2. For an existing record and a requested status among the four, the
    update is carried out (the record written with the requested status)
    when the pair (current, requested) is in the transition table or the
    requested status is the current one; every other pair is answered by a
    400 whose detail names both states, and the table is left as it was. *)
Theorem status_transitions_enforced
    (db : gmap (list N) PaymentORM.t) (payment_id : str) (row : PaymentORM.t)
    (description : option str) (requested : str) :
  db !! payment_id = Some row →
  requested ∈ statuses →
  let current := PaymentORM.status row in
  let payload := PaymentUpdate.mk description (Some requested) in
  (permitted current requested →
     update_payment payment_id payload db
     = (to_read (updated row payload), <[payment_id := updated row payload]> db)
     ∧ PaymentORM.status (updated row payload) = requested)
  ∧ (¬ permitted current requested →
       update_payment payment_id payload db
       = (HTTPException 400
            (lit "invalid status transition from " ++ current ++ lit " to " ++ requested),
          db)).
Proof.
  intros Hrow _ current payload. unfold update_payment, updated. rewrite Hrow.
  assert (PaymentORM.status
            match PaymentUpdate.description payload with
            | Some d => set_description (Some d) row
            | None => row
            end = current) as Hcur by (by destruct description).
  cbn [PaymentUpdate.status payload]. rewrite Hcur. split.
  - intros [Htable | ->].
    + apply allowed_transitions_table in Htable. by rewrite decide_True.
    + case_decide; [done|]. by rewrite decide_False by (by intros []).
  - intros Hno.
    rewrite decide_False by (intros H; apply Hno; left; by apply allowed_transitions_table).
    rewrite decide_True; [done|]. intros ->. apply Hno. by right.
Qed.

Lemma status_transitions_enforced_witness :
  let row := sample_row 2 PaymentStatus.COMPLETED in
  let payload := PaymentUpdate.mk None (Some PaymentStatus.REFUNDED) in
  sample_table !! lit "p2" = Some row ∧ PaymentStatus.REFUNDED ∈ statuses ∧
  ((permitted PaymentStatus.COMPLETED PaymentStatus.REFUNDED →
      update_payment (lit "p2") payload sample_table
      = (to_read (updated row payload), <[lit "p2" := updated row payload]> sample_table)
      ∧ PaymentORM.status (updated row payload) = PaymentStatus.REFUNDED)
   ∧ (¬ permitted PaymentStatus.COMPLETED PaymentStatus.REFUNDED →
        update_payment (lit "p2") payload sample_table
        = (HTTPException 400
             (lit "invalid status transition from " ++ PaymentStatus.COMPLETED
                ++ lit " to " ++ PaymentStatus.REFUNDED),
           sample_table))).
Proof.
  intros row payload.
  split; [vm_compute; reflexivity|]. split; [unfold statuses; set_solver|].
  apply (status_transitions_enforced sample_table (lit "p2") row None PaymentStatus.REFUNDED);
    [vm_compute; reflexivity | unfold statuses; set_solver].
Defined.

End update_claims.

(** ** The CRUD service: listing *)

Section list_claims.
Import py main main_spec.

(** [str.lower] *)
Variable lower : str → str.

#[local] Instance newer_first_total : Total newer_first.
Proof. intros a b. unfold newer_first. lia. Qed.

#[local] Instance newer_first_trans : Transitive newer_first.
Proof. intros a b c. unfold newer_first. lia. Qed.


End list_claims.

Section list_examples.
Import py main main_spec.

(** The example of the specification: five records, [limit=2], [offset=2]
    gives the third and the fourth newest. *)
Example list_third_and_fourth_newest :
  list_payments ascii_lower None 2 2 sample_table
  = all_or_error (to_read <$> [sample_row 3 PaymentStatus.PENDING;
                               sample_row 2 PaymentStatus.COMPLETED]).
Proof. vm_compute. reflexivity. Qed.


End list_examples.

(** ** The CRUD service: amounts through integer cents *)

Section precision_claims.
Import py main main_spec precision_spec.








(** The second example of the specification: 12.345 is rejected. *)
Example three_decimals_rejected :
  post_payments ascii_upper (body_of three_decimals) (lit "p1") 0 ∅
  = (RequestValidationError
       [value_error "__root__" (lit "amount must have at most 2 decimal places")], ∅).
Proof. vm_compute. reflexivity. Qed.


End precision_claims.

(** ** Signatures: digests are ASCII, and what comparing them gives *)

Section digests.
Import py.

Lemma hex_digit_ascii (n : Z) : 0 ≤ n < 16 → (hex_digit n <? 128)%N = true.
Proof.
  intros Hn. unfold hex_digit. apply N.ltb_lt.
  destruct (Z.ltb_spec n 10); lia.
Qed.

Lemma hex_ascii (bs : list Z) : is_ascii (hex bs) = true.
Proof.
  unfold hex, is_ascii. induction bs as [|b bs IH]; [done|].
  rewrite fmap_cons. change (mjoin (?l :: ?ls)) with (l ++ mjoin ls).
  rewrite forallb_app, IH. cbn [forallb app].
  rewrite !hex_digit_ascii; [done| |]; apply Z.mod_pos_bound; lia.
Qed.

Lemma hmac_hexdigest_ascii (key msg : bytes) : is_ascii (hmac_hexdigest key msg) = true.
Proof. apply hex_ascii. Qed.

(** Against an ASCII digest, a submitted signature either is the digest, or
    is another ASCII string, or cannot be compared at all. *)
Lemma compare_digest_ascii (digest signature : str) :
  is_ascii digest = true →
  compare_digest digest signature
  = if is_ascii signature then Val (bool_decide (digest = signature)) else Exc TypeError.
Proof. intros Ha. unfold compare_digest. by rewrite Ha. Qed.

Lemma compare_digest_true (digest signature : str) :
  is_ascii digest = true →
  compare_digest digest signature = Val true ↔ signature = digest.
Proof.
  intros Ha. rewrite compare_digest_ascii by done. split.
  - destruct (is_ascii signature); [|done]. intros [= H].
    by apply bool_decide_eq_true_1 in H.
  - intros ->. rewrite Ha. by rewrite bool_decide_eq_true_2.
Qed.

End digests.

(** ** The gateway order router: [verify_payment] *)

Section verify_payment_claims.
Import py fastapi payments signature_spec.

(** C6, as the code has it.  With a configured secret, and the secret, the
    order id and the payment id encodable as UTF-8, [verify_payment] answers
    [{valid: true}] exactly when the submitted signature is the lowercase hex
    HMAC-SHA256 digest of ["{order_id}|{payment_id}"]; it answers
    [{valid: false, reason: "signature_mismatch"}] for every other signature
    made of ASCII characters; a signature with a non-ASCII character cannot
    be compared and ends in the 500 "Signature verification failed".  With
    no secret configured the answer is the 500 configuration error. *)
Theorem verify_payment_outcomes
    (secret order_id payment_id signature : str) (key : bytes) (expected : str) :
  secret ≠ [] →
  encode_utf8 secret = Val key →
  expected_signature key order_id payment_id = Val expected →
  let payload := VerifyPaymentRequest.mk payment_id order_id signature in
  (verify_payment secret payload = OK (VerifyPaymentResponse.mk true None)
   ↔ signature = expected)
  ∧ (signature ≠ expected → is_ascii signature = true →
       verify_payment secret payload
       = OK (VerifyPaymentResponse.mk false (Some (lit "signature_mismatch"))))
  ∧ (is_ascii signature = false →
       verify_payment secret payload
       = HTTPException 500 (lit "Signature verification failed"))
  ∧ verify_payment [] payload = HTTPException 500 (lit "Razorpay secret not configured").
Proof.
  intros Hsecret Hkey Hexp payload. unfold expected_signature in Hexp.
  destruct (encode_utf8 (order_id ++ lit "|" ++ payment_id)) as [message|] eqn:Hmsg; [|done].
  injection Hexp as <-.
  assert (verify_payment secret payload
          = match compare_digest (hmac_hexdigest key message) signature with
            | Val true => OK (VerifyPaymentResponse.mk true None)
            | Val false => OK (VerifyPaymentResponse.mk false (Some (lit "signature_mismatch")))
            | Exc _ => HTTPException 500 (lit "Signature verification failed")
            end) as ->.
  { unfold verify_payment. destruct secret as [|c cs]; [done|].
    cbn [payload VerifyPaymentRequest.razorpay_order_id
         VerifyPaymentRequest.razorpay_payment_id VerifyPaymentRequest.razorpay_signature].
    rewrite Hmsg, Hkey. by destruct (compare_digest _ _) as [[]|]. }
  rewrite compare_digest_ascii by apply hmac_hexdigest_ascii.
  repeat split.
  - destruct (is_ascii signature); [|done]. case_bool_decide; done.
  - intros ->. rewrite hmac_hexdigest_ascii. by rewrite bool_decide_eq_true_2.
  - intros Hne ->. by rewrite bool_decide_eq_false_2.
  - by intros ->.
Qed.

(** The service wrapper compares in the same way, but lets the exception
    of a signature that cannot be compared through to its caller. *)
Lemma verify_payment_signature_outcomes
    (key_secret order_id payment_id signature : str) (key : bytes) (expected : str) :
  encode_utf8 key_secret = Val key →
  expected_signature key order_id payment_id = Val expected →
  razorpay_service.verify_payment_signature key_secret order_id payment_id signature
  = if is_ascii signature then Val (bool_decide (expected = signature)) else Exc TypeError.
Proof.
  intros Hkey Hexp. unfold expected_signature in Hexp.
  unfold razorpay_service.verify_payment_signature.
  destruct (encode_utf8 (order_id ++ lit "|" ++ payment_id)) as [message|]; [|done].
  injection Hexp as <-. rewrite Hkey.
  apply compare_digest_ascii, hmac_hexdigest_ascii.
Qed.

(** C6 as stated fails: the signature ["é"] is not the digest, yet the
    answer is not [{valid: false, reason: "signature_mismatch"}] but the 500
    of the [except Exception] branch. *)
Lemma non_ascii_signature_is_an_error :
  expected_signature (blit "s3cret") (lit "order_1") (lit "pay_1")
  = Val (VerifyPaymentRequest.razorpay_signature order_1)
  ∧ VerifyPaymentRequest.razorpay_signature order_1_accented
    ≠ VerifyPaymentRequest.razorpay_signature order_1
  ∧ verify_payment (lit "s3cret") order_1_accented
    = HTTPException 500 (lit "Signature verification failed")
  ∧ verify_payment (lit "s3cret") order_1_accented
    ≠ OK (VerifyPaymentResponse.mk false (Some (lit "signature_mismatch"))).
Proof.
  split; [vm_compute; reflexivity|]. split; [discriminate|].
  assert (verify_payment (lit "s3cret") order_1_accented
          = HTTPException 500 (lit "Signature verification failed")) as ->
    by (vm_compute; reflexivity).
  split; [reflexivity|discriminate].
Qed.

(** The example of the specification: for [order_1], [pay_1] and the secret
    [s3cret] the digest is accepted. *)
Example order_1_accepted :
  verify_payment (lit "s3cret") order_1 = OK (VerifyPaymentResponse.mk true None).
Proof. vm_compute. reflexivity. Qed.

Lemma verify_payment_outcomes_witness :
  let signature := lit "0000" in
  let expected := VerifyPaymentRequest.razorpay_signature order_1 in
  let payload := VerifyPaymentRequest.mk (lit "pay_1") (lit "order_1") signature in
  lit "s3cret" ≠ [] ∧ encode_utf8 (lit "s3cret") = Val (blit "s3cret") ∧
  expected_signature (blit "s3cret") (lit "order_1") (lit "pay_1") = Val expected ∧
  (verify_payment (lit "s3cret") payload = OK (VerifyPaymentResponse.mk true None)
   ↔ signature = expected)
  ∧ (signature ≠ expected → is_ascii signature = true →
       verify_payment (lit "s3cret") payload
       = OK (VerifyPaymentResponse.mk false (Some (lit "signature_mismatch"))))
  ∧ (is_ascii signature = false →
       verify_payment (lit "s3cret") payload
       = HTTPException 500 (lit "Signature verification failed"))
  ∧ verify_payment [] payload = HTTPException 500 (lit "Razorpay secret not configured").
Proof.
  intros signature expected payload.
  split; [discriminate|]. split; [vm_compute; reflexivity|].
  split; [vm_compute; reflexivity|].
  apply (verify_payment_outcomes (lit "s3cret") (lit "order_1") (lit "pay_1") signature
           (blit "s3cret") expected);
    [discriminate | vm_compute; reflexivity | vm_compute; reflexivity].
Defined.

End verify_payment_claims.

(** ** The webhook ingestion router *)

Section webhook_claims.
Import py webhooks signature_spec.

Variable json : Type.
Variable request_json : bytes → option json.
Variable json_loads_utf8 : bytes → option json.

(** An empty submitted signature never verifies, whatever the body. *)
Lemma empty_signature_never_verifies (payload : bytes) (secret : str) :
  _verify_hmac_signature payload [] secret = Val false.
Proof. by destruct secret. Qed.

(** C10. With the generic secret configured, a request to the generic
    endpoint whose X-Signature header is absent or empty is answered by the
    400 "Invalid signature", whatever its body. *)
Theorem generic_webhook_requires_signature
    (cfg : settings) (raw_body : bytes) (signature : option string) :
  configured (WEBHOOK_SECRET cfg) →
  signature = None ∨ signature = Some ""%string →
  generic_webhook json json_loads_utf8 cfg raw_body signature
  = raised 400 (lit "Invalid signature").
Proof.
  intros (c & cs & Hsecret) Hsig. unfold generic_webhook. rewrite Hsecret.
  assert (header_str signature = []) as -> by (by destruct Hsig as [-> | ->]).
  by rewrite empty_signature_never_verifies.
Qed.

(** [str(n).encode("utf-8")] never fails: the digits are ASCII. *)
Lemma encode_utf8_ascii (s : str) :
  is_ascii s = true → ∃ bs, encode_utf8 s = Val bs.
Proof.
  induction s as [|c s IH]; [by eexists|]. cbn.
  intros [Hc Hs]%andb_prop. destruct (IH Hs) as [bs ->].
  unfold utf8_char. rewrite Hc. by eexists.
Qed.

Lemma pos_digits_ascii (fuel : nat) (n : Z) (acc : str) :
  is_ascii acc = true → is_ascii (pos_digits fuel n acc) = true.
Proof.
  revert n acc. induction fuel as [|fuel IH]; intros n acc Hacc; [done|].
  cbn [pos_digits].
  assert (is_ascii (Z.to_N (48 + n `mod` 10) :: acc) = true) as Hcons.
  { unfold is_ascii in *. cbn [forallb]. rewrite Hacc, andb_true_r. apply N.ltb_lt.
    pose proof (Z.mod_pos_bound n 10). lia. }
  destruct (n <? 10); [done|]. by apply IH.
Qed.

Lemma str_of_int_encodes (n : Z) : ∃ stamp, encode_utf8 (str_of_int n) = Val stamp.
Proof.
  apply encode_utf8_ascii. unfold str_of_int.
  destruct (n <? 0); [|by apply pos_digits_ascii].
  change (is_ascii (45%N :: ?l)) with (is_ascii l). by apply pos_digits_ascii.
Qed.

(** The signature check of the Stripe-style endpoint lets a request through
    exactly when its header passes. *)
Lemma verify_stripe_signature_true (secret : str) (now : float) (tolerance : Z)
    (raw_body : bytes) (header : option string) :
  secret ≠ [] →
  _verify_stripe_signature now tolerance raw_body (header_str header) secret = Val true
  ↔ stripe_signature_passes secret now tolerance raw_body header.
Proof.
  intros Hsecret. unfold _verify_stripe_signature, stripe_signature_passes.
  destruct secret as [|c cs]; [done|]. split.
  - destruct (_parse_stripe_signature_header _) as [parsed|] eqn:Hparse; [|done].
    destruct (decide (parsed = ∅)); [done|].
    destruct (parsed !! lit "t") as [t|] eqn:Ht; [|done].
    destruct (parsed !! lit "v1") as [v1|] eqn:Hv1; [|done].
    destruct (int t) as [timestamp|[]] eqn:Hint; [|done..].
    destruct (float_of_int timestamp) as [ts|] eqn:Hts; [|done].
    destruct (float_gt_int _ _) eqn:Htol; [done|].
    destruct (encode_utf8 (str_of_int timestamp)) as [stamp|] eqn:Hstamp; [|done].
    destruct (encode_utf8 (c :: cs)) as [key|] eqn:Hkey; [|done].
    intros Hcmp%compare_digest_true; [|apply hmac_hexdigest_ascii].
    by exists parsed, t, v1, timestamp, ts, stamp, key.
  - intros (parsed & t & v1 & timestamp & ts & stamp & key
            & -> & Ht & Hv1 & Hint & Hts & Htol & Hstamp & Hkey & ->).
    rewrite decide_False by (intros ->; by rewrite lookup_empty in Ht).
    rewrite Ht, Hv1, Hint, Hts, Htol, Hstamp, Hkey.
    by apply compare_digest_true; [apply hmac_hexdigest_ascii|].
Qed.


End webhook_claims.

Section webhook_witnesses.
Import py webhooks signature_spec.

(** A signed request, as the gateway would send it one hundred seconds
    before the clock reading. *)
Example signed_request_received :
  stripe_webhook unit only_empty_object stripe_settings clock (blit "{}") (Some stripe_header)
  = received tt.
Proof. vm_compute. reflexivity. Qed.

(** The same request, read 301 seconds after its timestamp, is rejected in
    spite of its digest. *)
Example stale_request_rejected :
  stripe_webhook unit only_empty_object stripe_settings 1700000301%float (blit "{}")
    (Some stripe_header)
  = raised 400 (lit "Invalid signature").
Proof. vm_compute. reflexivity. Qed.

(** At exactly the tolerance the request still passes. *)
Example request_at_tolerance_received :
  stripe_webhook unit only_empty_object stripe_settings 1700000300%float (blit "{}")
    (Some stripe_header)
  = received tt.
Proof. vm_compute. reflexivity. Qed.

Lemma generic_webhook_requires_signature_witness :
  configured (WEBHOOK_SECRET stripe_settings) ∧
  ((None : option string) = None ∨ (None : option string) = Some ""%string) ∧
  generic_webhook unit only_empty_object stripe_settings (blit "{}") None
  = raised 400 (lit "Invalid signature").
Proof.
  assert (configured (WEBHOOK_SECRET stripe_settings)) as Hcfg by (by eexists _, _).
  split; [exact Hcfg|]. split; [by left|].
  apply (generic_webhook_requires_signature unit only_empty_object stripe_settings
           (blit "{}") None Hcfg). by left.
Defined.


(** How the header is read: parts without [=] are skipped, keys and values
    are stripped, and a key given twice keeps its last value. *)
Example header_parsing :
  _parse_stripe_signature_header (lit " t = 5 ,junk,v1=ab, v1= cd=ef ")
  = Some (<[lit "t" := lit "5"]> (<[lit "v1" := lit "cd=ef"]> ∅)).
Proof. vm_compute. reflexivity. Qed.

End webhook_witnesses.

(** ** Concurrent debits on one account *)

Section interleavings.
Import concurrent_debit.

Lemma sum_debited_alter (l : list caller) (i : nat) (c : caller) (p : pc) :
  l !! i = Some c →
  models.sum (debited <$> alter (λ c, mkCaller (amount c) p) i l)
  = models.sum (debited <$> l) - debited c + debited (mkCaller (amount c) p).
Proof.
  unfold models.sum. revert i. induction l as [|x l IH]; intros [|i] Hi; try done.
  - injection Hi as ->. cbn. lia.
  - cbn in *. specialize (IH i Hi). lia.
Qed.

Lemma work_alter (l : list caller) (i : nat) (c : caller) (p : pc) :
  l !! i = Some c →
  (sum_list (remaining <$> alter (λ c, mkCaller (amount c) p) i l) + remaining c
   = sum_list (remaining <$> l) + remaining (mkCaller (amount c) p))%nat.
Proof.
  revert i. induction l as [|x l IH]; intros [|i] Hi; try done.
  - injection Hi as ->. cbn. lia.
  - cbn in *. specialize (IH i Hi). lia.
Qed.

Lemma lookup_move (s : system) (i j : nat) (p : pc) (c : caller) :
  move i p s !! j = Some c →
  (i = j ∧ ∃ c0, callers s !! i = Some c0 ∧ c = mkCaller (amount c0) p)
  ∨ (i ≠ j ∧ callers s !! j = Some c).
Proof.
  unfold move. destruct (decide (i = j)) as [->|Hne].
  - rewrite list_lookup_alter_eq. destruct (callers s !! j) as [c0|]; [|done].
    intros [= <-]. left. eauto.
  - rewrite list_lookup_alter_ne by done. eauto.
Qed.

(** A caller that does not hold the lock is not disturbed by what the
    others do: the balance can only have gone down, and the lock can only
    have gone to, or come back from, another caller. *)
Lemma caller_ok_other (b0 balance balance' : Z) (lock lock' : option nat)
    (j : nat) (c : caller) :
  caller_ok b0 balance lock j c →
  lock ≠ Some j → lock' ≠ Some j → balance' ≤ balance →
  caller_ok b0 balance' lock' j c.
Proof.
  unfold caller_ok. destruct (at_pc c); naive_solver lia.
Qed.

(** Every statement preserves the invariant. *)
Lemma step_invariant (b0 : Z) (i : nat) (s s' : system) :
  invariant b0 s → step i s = Some s' → invariant b0 s'.
Proof.
  intros [Hbal Hbounds Hcallers Howner]. unfold step.
  destruct (callers s !! i) as [c|] eqn:Hc; [|done].
  pose proof (Hcallers i c Hc) as Hok. unfold caller_ok in Hok.
  assert (∀ p bal lock,
            bal = row_balance s - (debited (mkCaller (amount c) p) - debited c) →
            0 ≤ bal ≤ row_balance s →
            caller_ok b0 bal lock i (mkCaller (amount c) p) →
            (row_lock s = Some i ∧ (lock = None ∨ lock = Some i)
             ∨ row_lock s = None ∧ lock = Some i
             ∨ lock = row_lock s ∧ bal = row_balance s) →
            invariant b0 (mkSystem bal lock (move i p s))) as Hstep.
  { intros p bal lock Hbal' Hbounds' Hme Hlocks. split; cbn.
    - unfold move. rewrite (sum_debited_alter _ _ _ _ Hc). lia.
    - lia.
    - intros j c' [[<- (c0 & Hc0 & ->)]|[Hne Hj]]%lookup_move.
      + by simplify_eq.
      + pose proof (Hcallers j c' Hj) as Hj'.
        destruct Hlocks as [[Hl Hl']|[[Hl Hl']|[-> ->]]]; [| |done].
        * apply (caller_ok_other b0 (row_balance s) bal (row_lock s) lock);
            [done| | |lia]; naive_solver.
        * apply (caller_ok_other b0 (row_balance s) bal (row_lock s) lock);
            [done| | |lia]; naive_solver.
    - intros j Hj. unfold move. destruct (decide (i = j)) as [->|Hne].
      + rewrite list_lookup_alter_eq, Hc. by eexists.
      + rewrite list_lookup_alter_ne by done. apply Howner. naive_solver. }
  assert (debited c = match at_pc c with
                      | Saved | Refreshed _ | Returned _ => amount c
                      | _ => 0
                      end) as Hdebited by done.
  destruct (at_pc c) as [| |a| |b|b|msg] eqn:Hpc; try done.
  - (* the amount test *)
    destruct (Z.ltb_spec (amount c) 0); intros [= <-];
      (apply Hstep;
       [ unfold debited at 1; cbn; lia | lia | unfold caller_ok; cbn; naive_solver lia
       | by right; right ]).
  - (* select_for_update *)
    destruct (row_lock s) eqn:Hlock; [done|]. intros [= <-].
    apply Hstep;
      [ unfold debited at 1; cbn; lia | lia | unfold caller_ok; cbn; naive_solver
      | by right; left ].
  - (* the balance test, then the relative update *)
    destruct Hok as (Hlock & -> & Hpos).
    destruct (Z.ltb_spec (row_balance s) (amount c)); intros [= <-].
    + apply Hstep;
        [ unfold debited at 1; cbn; lia | lia | unfold caller_ok; cbn; naive_solver
        | left; split; [done|by left] ].
    + apply Hstep;
        [ unfold debited at 1; cbn; lia | lia | unfold caller_ok; cbn; naive_solver lia
        | left; split; [done|by right] ].
  - (* refresh_from_db *)
    intros [= <-]. destruct Hok as (Hlock & Hpos & Hle).
    apply Hstep;
      [ unfold debited at 1; cbn; lia | lia | unfold caller_ok; cbn; naive_solver
      | by right; right ].
  - (* commit *)
    intros [= <-]. destruct Hok as (Hlock & -> & Hpos & Hle).
    apply Hstep;
      [ unfold debited at 1; cbn; lia | lia | unfold caller_ok; cbn; naive_solver lia
      | left; split; [done|by left] ].
Qed.

Lemma run_invariant (b0 : Z) (schedule : list nat) (s : system) :
  invariant b0 s → invariant b0 (run schedule s).
Proof.
  revert s. induction schedule as [|i rest IH]; intros s Hinv; [done|].
  cbn. apply IH. destruct (step i s) as [s'|] eqn:Hstep; [|done].
  by apply (step_invariant b0 i s).
Qed.

Lemma start_invariant (b0 : Z) (amounts : list Z) :
  0 ≤ b0 → invariant b0 (start b0 amounts).
Proof.
  intros Hb0. split; cbn.
  - replace (models.sum (debited <$> ((λ a, mkCaller a Called) <$> amounts))) with 0; [lia|].
    unfold models.sum. induction amounts as [|a l IH]; [done|]. cbn in *. lia.
  - lia.
  - intros i c Hc. apply list_lookup_fmap_Some in Hc as (a & -> & _). by cbn.
  - done.
Qed.

(** A statement keeps the amounts the callers asked for. *)
Lemma step_amounts (i : nat) (s s' : system) :
  step i s = Some s' → amount <$> callers s' = amount <$> callers s.
Proof.
  assert (∀ p, amount <$> move i p s = amount <$> callers s) as Hmove.
  { intros p. unfold move. apply list_eq; intros j. rewrite !list_lookup_fmap.
    destruct (decide (i = j)) as [->|Hne].
    - rewrite list_lookup_alter_eq. by destruct (callers s !! j).
    - by rewrite list_lookup_alter_ne. }
  unfold step. destruct (callers s !! i) as [c|]; [|done].
  destruct (at_pc c); try done; repeat case_match; try done; intros [= <-]; apply Hmove.
Qed.

Lemma run_amounts (schedule : list nat) (s : system) :
  amount <$> callers (run schedule s) = amount <$> callers s.
Proof.
  revert s. induction schedule as [|i rest IH]; intros s; [done|].
  cbn. rewrite IH. destruct (step i s) as [s'|] eqn:Hstep; [|done].
  by apply (step_amounts i).
Qed.

Lemma run_app (l1 l2 : list nat) (s : system) : run (l1 ++ l2) s = run l2 (run l1 s).
Proof. revert s. induction l1 as [|i l1 IH]; intros s; [done|]. cbn. apply IH. Qed.

Lemma forallb_false_lookup {A} (f : A → bool) (l : list A) :
  forallb f l = false → ∃ j c, l !! j = Some c ∧ f c = false.
Proof.
  induction l as [|x l IH]; [done|]. cbn. destruct (f x) eqn:Hx.
  - intros (j & c & Hj & Hc)%IH. by exists (S j), c.
  - intros _. by exists 0%nat, x.
Qed.

(** No deadlock: while a caller has not finished, some caller can move. *)
Lemma progress (b0 : Z) (s : system) :
  invariant b0 s → forallb finished (callers s) = false → ∃ i s', step i s = Some s'.
Proof.
  intros [_ _ Hcallers Howner] Hrun.
  destruct (row_lock s) as [i|] eqn:Hlock.
  - destruct (Howner i eq_refl) as [c Hc]. exists i.
    pose proof (Hcallers i c Hc) as Hok. unfold caller_ok in Hok. unfold step.
    rewrite Hc, Hlock in *.
    destruct (at_pc c); try naive_solver; repeat case_match; eauto.
  - apply forallb_false_lookup in Hrun as (j & c & Hj & Hc). exists j.
    pose proof (Hcallers j c Hj) as Hok. unfold caller_ok in Hok. unfold step.
    rewrite Hj, Hlock in *. unfold finished in Hc.
    destruct (at_pc c); try naive_solver; repeat case_match; eauto.
Qed.

(** Every statement uses up some of the work that is left. *)
Lemma move_work (i : nat) (s : system) (c : caller) (p : pc) :
  callers s !! i = Some c →
  (remaining (mkCaller (amount c) p) < remaining c)%nat →
  (sum_list (remaining <$> move i p s) < work s)%nat.
Proof.
  intros Hc Hlt. pose proof (work_alter _ _ _ p Hc) as Hw. unfold work, move. lia.
Qed.

Lemma step_work (i : nat) (s s' : system) :
  step i s = Some s' → (work s' < work s)%nat.
Proof.
  unfold step. destruct (callers s !! i) as [c|] eqn:Hc; [|done].
  destruct (at_pc c) eqn:Hpc; try done; repeat case_match; try done; intros [= <-];
    unfold work at 1; cbn [callers]; apply (move_work _ _ c); try done;
    unfold remaining; cbn; rewrite Hpc; lia.
Qed.

(** From a reachable state, some continuation brings every caller to its
    end. *)
Lemma can_finish (b0 : Z) (s : system) :
  invariant b0 s → ∃ rest, forallb finished (callers (run rest s)) = true.
Proof.
  remember (work s) as n eqn:Hn. revert s Hn.
  induction (lt_wf n) as [n _ IH]. intros s -> Hinv.
  destruct (forallb finished (callers s)) eqn:Hall.
  - by exists [].
  - destruct (progress b0 s Hinv Hall) as (i & s' & Hstep).
    destruct (IH (work s') (step_work i s s' Hstep) s' eq_refl
                (step_invariant b0 i s s' Hinv Hstep)) as [rest Hrest].
    exists (i :: rest). cbn. by rewrite Hstep.
Qed.

(** C8. Two debits run concurrently against one account, each asking for no
    more than the balance but both together for more (60.00 and 60.00 out of
    100.00): whatever the interleaving, they never both succeed; once both
    have finished, one has returned the balance less its amount and the other
    has failed with "insufficient funds"; and every interleaving can be
    continued until both have finished. *)
Theorem concurrent_debits_one_succeeds (b0 a1 a2 : Z) (schedule : list nat) :
  0 ≤ a1 ≤ b0 → 0 ≤ a2 ≤ b0 → b0 < a1 + a2 →
  let s := run schedule (start b0 [a1; a2]) in
  forallb succeeded (callers s) = false
  ∧ (forallb finished (callers s) = true →
       (callers s = [mkCaller a1 (Returned (b0 - a1)); mkCaller a2 (Raised "insufficient funds")]
        ∧ row_balance s = b0 - a1)
       ∨ (callers s = [mkCaller a1 (Raised "insufficient funds"); mkCaller a2 (Returned (b0 - a2))]
          ∧ row_balance s = b0 - a2))
  ∧ ∃ rest, forallb finished (callers (run (schedule ++ rest) (start b0 [a1; a2]))) = true.
Proof.
  intros Ha1 Ha2 Hboth s.
  assert (invariant b0 s) as Hinv by (apply run_invariant, start_invariant; lia).
  pose proof (run_amounts schedule (start b0 [a1; a2])) as Hamounts. fold s in Hamounts.
  destruct (callers s) as [|[x1 p1] [|[x2 p2] [|]]] eqn:Hcs; try done.
  cbn in Hamounts. injection Hamounts as -> ->.
  destruct Hinv as [Hbal Hbounds Hcallers _]. rewrite Hcs in *.
  pose proof (Hcallers 0%nat _ eq_refl) as Hok1.
  pose proof (Hcallers 1%nat _ eq_refl) as Hok2.
  unfold caller_ok in Hok1, Hok2. cbn in Hbal, Hok1, Hok2.
  split; [|split].
  - cbn. unfold succeeded; cbn. destruct p1, p2; try done. cbn in Hbal. lia.
  - cbn. unfold finished; cbn. intros Hfin.
    destruct p1 as [| | | | |r1|m1], p2 as [| | | | |r2|m2]; try done; cbn in Hbal.
    + lia.
    + left. destruct Hok2 as (_ & [(-> & _ & _)|(_ & ?)]); [|lia].
      split; [|lia]. do 3 f_equal. lia.
    + right. destruct Hok1 as (_ & [(-> & _ & _)|(_ & ?)]); [|lia].
      split; [|lia]. do 4 f_equal. lia.
    + destruct Hok1 as (_ & [(-> & _ & ?)|(_ & ?)]); lia.
  - destruct (can_finish b0 s) as [rest Hrest].
    { apply run_invariant, start_invariant; lia. }
    exists rest. by rewrite run_app.
Qed.

Lemma concurrent_debits_one_succeeds_witness :
  let s := run [0; 1; 1; 0; 0; 1; 0; 0; 1; 1]%nat (start 10000 [6000; 6000]) in
  0 ≤ 6000 ≤ 10000 ∧ 10000 < 6000 + 6000 ∧
  forallb succeeded (callers s) = false
  ∧ (forallb finished (callers s) = true →
       (callers s = [mkCaller 6000 (Returned (10000 - 6000));
                     mkCaller 6000 (Raised "insufficient funds")]
        ∧ row_balance s = 10000 - 6000)
       ∨ (callers s = [mkCaller 6000 (Raised "insufficient funds");
                       mkCaller 6000 (Returned (10000 - 6000))]
          ∧ row_balance s = 10000 - 6000))
  ∧ ∃ rest, forallb finished
              (callers (run ([0; 1; 1; 0; 0; 1; 0; 0; 1; 1]%nat ++ rest)
                          (start 10000 [6000; 6000]))) = true.
Proof.
  intros s. split; [lia|]. split; [lia|].
  apply (concurrent_debits_one_succeeds 10000 6000 6000 [0; 1; 1; 0; 0; 1; 0; 0; 1; 1]%nat);
    lia.
Defined.

(** One interleaving in full: the second caller gets the lock first,
    the first one waits, then finds 40.00 and fails. *)
Example second_caller_wins :
  run [0; 1; 1; 0; 0; 1; 0; 0; 1; 1; 0; 0]%nat (start 10000 [6000; 6000])
  = mkSystem 4000 None [mkCaller 6000 (Raised "insufficient funds");
                        mkCaller 6000 (Returned 4000)].
Proof. reflexivity. Qed.

End interleavings.

(* ===================================================================== *)
(** * Part III: further properties of the code *)
(* ===================================================================== *)

(** ** The ledger: what a failed call leaves behind, and what a call touches *)

Section ledger_atomicity.
Import models.

Lemma atomic_raise {A} (m : DB A) (s s' : store) (e : exn) :
  atomic m s = (Raise e, s') → s' = s.
Proof. unfold atomic. destruct (m s) as [[a|e'] s'']; by intros [= _ <-]. Qed.

(** X1. A call of [Account.credit], [Account.debit] or [Refund.process]
    that raises, whatever the exception, leaves every table as it was. *)
Theorem ledger_failures_change_nothing
    (self : Account) (amount : Decimal) (r : Refund) (now : Z) (s s' : store) (e : exn) :
  (credit self amount s = (Raise e, s') → s' = s)
  ∧ (debit self amount s = (Raise e, s') → s' = s)
  ∧ (process r now s = (Raise e, s') → s' = s).
Proof.
  repeat split.
  - unfold credit. destruct (amount <? 0).
    + by intros [= _ <-].
    + apply atomic_raise.
  - unfold debit. destruct (amount <? 0).
    + by intros [= _ <-].
    + apply atomic_raise.
  - unfold process, bind at 1, get_transaction.
    destruct (transactions s !! transaction_id r) as [tx|]; [|by intros [= _ <-]].
    destruct (negb _).
    + by intros [= _ <-].
    + apply atomic_raise.
Qed.

(** X2. [Account.credit] and [Account.debit] touch the row of their own
    account only: the other accounts, the transactions and the refunds are
    the same after the call, whether it returns or raises. *)
Theorem account_calls_touch_one_row
    (self : Account) (o : op) (s s' : store) (r : outcome (Decimal * Account)) :
  call self o s = (r, s') →
  transactions s' = transactions s
  ∧ refunds s' = refunds s
  ∧ ∀ k, k ≠ pk self → accounts s' !! k = accounts s !! k.
Proof.
  assert (∀ d, let s1 := set_accounts (alter (λ x, x + d) (pk self)) s in
               transactions s1 = transactions s ∧ refunds s1 = refunds s
               ∧ ∀ k, k ≠ pk self → accounts s1 !! k = accounts s !! k) as Halter.
  { intros d. cbn. repeat split. intros k Hk. by rewrite lookup_alter_ne. }
  destruct o as [a|a]; cbn [call].
  - unfold credit. destruct (a <? 0); [by intros [= _ <-]|].
    unfold atomic, bind, update_balance, get_account, ret.
    destruct (accounts (set_accounts _ s) !! pk self); intros [= _ <-]; [apply Halter|done].
  - unfold debit. destruct (a <? 0); [by intros [= _ <-]|].
    unfold atomic, bind, save_balance, get_account, raise, ret.
    destruct (accounts s !! pk self) as [b|] eqn:Hb; [|by intros [= _ <-]].
    destruct (b <? a); [by intros [= _ <-]|]. rewrite Hb.
    destruct (accounts (set_accounts _ s) !! pk self); intros [= _ <-]; [apply Halter|done].
Qed.



End ledger_atomicity.

(** ** The ledger: where a refund takes the money, and when it is refused *)

Section refund_moves.
Import models.

Variables (self : Refund) (now : Z) (s : store) (tx : PaymentTransaction).
Variables (src dst : Z) (bs bd : Decimal).
Hypothesis Hself : is_Some (refunds s !! refund_id self).
Hypothesis Htx : transactions s !! transaction_id self = Some tx.
Hypothesis Hid : tx_id tx = transaction_id self.
Hypothesis Hstatus : status tx = STATUS_COMPLETED.
Hypothesis Hto : to_account tx = Some src.
Hypothesis Hfrom : from_account tx = Some dst.
Hypothesis Hsrc : accounts s !! src = Some bs.
Hypothesis Hdst : accounts s !! dst = Some bd.
Hypothesis Hfunds : amount self ≤ bs.



End refund_moves.

Section refund_refusals.
Import models.


End refund_refusals.

Section refund_witnesses.
Import models samples.



End refund_witnesses.

(** ** The ledger: marking a transaction completed or failed *)

Section marks.
Import py pyjson models transaction_marks.

Lemma dict_get_set (k k' : str) (v : json) (d : list (list N * json)) :
  dict_get k' (dict_set k v d) = if decide (k = k') then Some v else dict_get k' d.
Proof.
  induction d as [|[k0 v0] d IH]; cbn.
  - by repeat case_decide.
  - repeat (case_decide; cbn; subst); try done; by rewrite ?IH, ?decide_False, ?decide_True.
Qed.

(** X6. [mark_completed] is idempotent.  On an instance that is not
    [COMPLETED] the call writes the status and the completion time, and
    these two columns only, to the row of the transaction; on an instance
    that is [COMPLETED] already it writes nothing.  Either way the instance
    is [COMPLETED] afterwards, no other row changes, and a second call, at
    any later time, changes nothing: the completion time stays the one of
    the first call. *)
Theorem mark_completed_idempotent
    (self row : transaction) (t1 t2 : Z) (tbl : gmap N transaction) :
  tbl !! id self = Some row →
  ∃ self1 tbl1,
    mark_completed self t1 tbl = (None, self1, tbl1)
    ∧ id self1 = id self
    ∧ status self1 = STATUS_COMPLETED
    ∧ tbl1 !! id self
      = Some (if decide (status self = STATUS_COMPLETED) then row
              else mkTransaction (id row) STATUS_COMPLETED (Some t1) (metadata row))
    ∧ (∀ k, k ≠ id self → tbl1 !! k = tbl !! k)
    ∧ mark_completed self1 t2 tbl1 = (None, self1, tbl1).
Proof.
  intros Hrow. unfold mark_completed at 1.
  destruct (decide (status self ≠ STATUS_COMPLETED)) as [Hne|Heq].
  - unfold save. cbn [id]. rewrite Hrow. do 2 eexists. split; [done|].
    split; [done|]. split; [done|].
    split; [by rewrite lookup_alter_eq, Hrow, decide_False|].
    split; [intros k Hk; by rewrite lookup_alter_ne|].
    unfold mark_completed. by rewrite decide_False by (by intros []).
  - apply dec_stable in Heq. exists self, tbl. split; [done|]. split; [done|].
    split; [done|]. split; [by rewrite decide_True|]. split; [done|].
    unfold mark_completed. by rewrite decide_False by (by intros []).
Qed.

(** One call of [mark_failed] with a reason: the list of reasons grows by
    it at the end, and instance and row are [FAILED] with the same metadata. *)
Lemma mark_failed_appends (self : transaction) (reason : str) (l : list json)
    (tbl : gmap N transaction) :
  is_Some (tbl !! id self) → reason ≠ [] →
  failure_reasons (metadata self) = Some l →
  ∃ self1 tbl1,
    mark_failed self reason tbl = (None, self1, tbl1)
    ∧ id self1 = id self ∧ status self1 = STATUS_FAILED
    ∧ failure_reasons (metadata self1) = Some (l ++ [JString reason])
    ∧ (∀ d d1 k, metadata self = JObject d → metadata self1 = JObject d1 →
                 k ≠ lit "failure_reasons" → dict_get k d1 = dict_get k d)
    ∧ tbl1 !! id self
      = (write_status_metadata self1) <$> tbl !! id self.
Proof.
  intros [row Hrow] Hreason Hl. unfold mark_failed, failure_reasons in *.
  cbn [metadata id status completed_at].
  destruct reason as [|c reason]; [done|].
  destruct (metadata self) as [| | | | | |d] eqn:Hm; try done. unfold append_reason.
  assert (∀ new,
    ∃ self1 tbl1,
      (let self0 := mkTransaction (id self) STATUS_FAILED (completed_at self)
                      (JObject (dict_set (lit "failure_reasons") (JArray new) d)) in
       let '(e, tbl0) := save self0 write_status_metadata tbl in (e, self0, tbl0))
      = (None, self1, tbl1)
      ∧ id self1 = id self ∧ status self1 = STATUS_FAILED
      ∧ match metadata self1 with
        | JObject d0 =>
            match dict_get (lit "failure_reasons") d0 with
            | Some (JArray l0) => Some l0
            | Some _ => None
            | None => Some []
            end
        | _ => None
        end = Some new
      ∧ (∀ d0 d1 k, JObject d = JObject d0 → metadata self1 = JObject d1 →
                    k ≠ lit "failure_reasons" → dict_get k d1 = dict_get k d0)
      ∧ tbl1 !! id self = (write_status_metadata self1) <$> tbl !! id self) as Hgo.
  { intros new. unfold save. cbn [id]. rewrite Hrow. do 2 eexists.
    split; [done|]. cbn [id status metadata]. split; [done|]. split; [done|].
    split; [by rewrite dict_get_set, decide_True|]. split.
    - intros d0 d1 k [= <-] [= <-] Hk. by rewrite dict_get_set, decide_False.
    - by rewrite lookup_alter_eq, Hrow. }
  destruct (dict_get (lit "failure_reasons") d) as [[| | | | |l0|]|]; try done.
  - injection Hl as <-. apply Hgo.
  - injection Hl as <-. apply Hgo.
Qed.

(** X7. [mark_failed] does not look at the status: whatever it was, the
    instance and the row are [FAILED] afterwards.  Called once per reason,
    with reasons that are not empty, on a transaction whose metadata is an
    object with the reasons so far in a list (or none yet), it lengthens that
    list by the reasons, in the order of the calls, leaves the other keys of
    the metadata alone, and writes the metadata to the row. *)
Theorem mark_failed_accumulates
    (reasons : list str) (self : transaction) (l : list json) (d : list (list N * json))
    (tbl : gmap N transaction) :
  is_Some (tbl !! id self) → Forall (λ r, r ≠ []) reasons →
  metadata self = JObject d →
  failure_reasons (metadata self) = Some l →
  ∃ self1 tbl1 d1,
    mark_failed_each self reasons tbl = (None, self1, tbl1)
    ∧ id self1 = id self
    ∧ is_Some (tbl1 !! id self)
    ∧ metadata self1 = JObject d1
    ∧ failure_reasons (metadata self1) = Some (l ++ (JString <$> reasons))
    ∧ (∀ k, k ≠ lit "failure_reasons" → dict_get k d1 = dict_get k d)
    ∧ (reasons ≠ [] →
         status self1 = STATUS_FAILED
         ∧ status <$> tbl1 !! id self = Some STATUS_FAILED
         ∧ metadata <$> tbl1 !! id self = Some (metadata self1)).
Proof.
  revert self l d tbl.
  induction reasons as [|r rest IH]; intros self l d tbl Hrow Hall Hm Hl.
  { exists self, tbl, d. cbn. rewrite app_nil_r. by repeat (split; [done|]). }
  apply Forall_cons in Hall as [Hr Hrest].
  destruct (mark_failed_appends self r l tbl Hrow Hr Hl)
    as (self1 & tbl1 & Hrun & Hid & Hst & Hl1 & Hkeys & Hrow1).
  cbn [mark_failed_each]. rewrite Hrun.
  assert (∃ d1, metadata self1 = JObject d1) as [d1 Hm1].
  { unfold failure_reasons in Hl1. destruct (metadata self1); try done. by eexists. }
  assert (is_Some (tbl1 !! id self1)) as Hrow1'.
  { rewrite Hid, Hrow1. destruct Hrow as [row ->]. by eexists. }
  destruct (IH self1 (l ++ [JString r]) d1 tbl1 Hrow1' Hrest Hm1 Hl1)
    as (self2 & tbl2 & d2 & Hrun2 & Hid2 & Hrow2 & Hm2 & Hl2 & Hkeys2 & Hlast).
  exists self2, tbl2, d2. split; [done|]. split; [congruence|].
  split; [by rewrite <- Hid|]. split; [done|].
  split; [by rewrite Hl2, <- app_assoc|]. split.
  { intros k Hk. rewrite (Hkeys2 k Hk). by apply (Hkeys d d1). }
  intros _. destruct rest as [|r2 rest].
  - cbn in Hrun2. injection Hrun2 as <- <-. split; [done|].
    rewrite Hrow1. destruct Hrow as [row ->]. cbn. by rewrite Hst.
  - rewrite <- Hid. by apply Hlast.
Qed.

Lemma mark_completed_idempotent_witness :
  let pending := mkTransaction 7 STATUS_PENDING None (metadata noted) in
  ({[ 7%N := noted ]} : gmap N transaction) !! id pending = Some noted ∧
  ∃ self1 tbl1,
    mark_completed pending 20 {[ 7%N := noted ]} = (None, self1, tbl1)
    ∧ id self1 = id pending
    ∧ status self1 = STATUS_COMPLETED
    ∧ tbl1 !! id pending
      = Some (if decide (status pending = STATUS_COMPLETED) then noted
              else mkTransaction (id noted) STATUS_COMPLETED (Some 20) (metadata noted))
    ∧ (∀ k, k ≠ id pending → tbl1 !! k = ({[ 7%N := noted ]} : gmap N transaction) !! k)
    ∧ mark_completed self1 30 tbl1 = (None, self1, tbl1).
Proof.
  intros pending.
  assert (({[ 7%N := noted ]} : gmap N transaction) !! id pending = Some noted) as Hrow
    by reflexivity.
  split; [exact Hrow|].
  exact (mark_completed_idempotent pending noted 20 30 {[ 7%N := noted ]} Hrow).
Defined.

Lemma mark_failed_accumulates_witness :
  let reasons := [lit "card declined"; lit "retry failed"] in
  let d := [(lit "note", JString (lit "gift"))] in
  is_Some (({[ 7%N := noted ]} : gmap N transaction) !! id noted) ∧
  Forall (λ r, r ≠ []) reasons ∧
  metadata noted = JObject d ∧
  failure_reasons (metadata noted) = Some [] ∧
  ∃ self1 tbl1 d1,
    mark_failed_each noted reasons {[ 7%N := noted ]} = (None, self1, tbl1)
    ∧ id self1 = id noted
    ∧ is_Some (tbl1 !! id noted)
    ∧ metadata self1 = JObject d1
    ∧ failure_reasons (metadata self1) = Some ([] ++ (JString <$> reasons))
    ∧ (∀ k, k ≠ lit "failure_reasons" → dict_get k d1 = dict_get k d)
    ∧ (reasons ≠ [] →
         status self1 = STATUS_FAILED
         ∧ status <$> tbl1 !! id noted = Some STATUS_FAILED
         ∧ metadata <$> tbl1 !! id noted = Some (metadata self1)).
Proof.
  intros reasons d.
  assert (is_Some (({[ 7%N := noted ]} : gmap N transaction) !! id noted)) as Hrow
    by (by eexists).
  assert (Forall (λ r : list N, r ≠ []) reasons) as Hall
    by (repeat constructor; discriminate).
  split; [exact Hrow|]. split; [exact Hall|]. split; [reflexivity|]. split; [reflexivity|].
  apply (mark_failed_accumulates reasons noted [] d {[ 7%N := noted ]} Hrow Hall);
    reflexivity.
Defined.

End marks.


(** ** The CRUD service as a whole *)

Section crud.
Import py main main_spec main_routes.

(** [str.lower] and [str.upper] *)
Variables lower upper : str → str.

Lemma to_read_with_status row code created :
  with_status code (to_read row) = OK code created → to_read row = OK 200 created.
Proof. unfold to_read. destruct (float_of_int _); cbn; congruence. Qed.

Lemma to_read_fields row code created :
  to_read row = OK code created →
  PaymentRead.id created = PaymentORM.id row
  ∧ PaymentRead.currency created = PaymentORM.currency row
  ∧ PaymentRead.method created = PaymentORM.method row
  ∧ PaymentRead.status created = PaymentORM.status row
  ∧ PaymentRead.description created = PaymentORM.description row
  ∧ PaymentRead.created_at created = PaymentORM.created_at row.
Proof.
  unfold to_read. destruct (float_of_int _); [|done]. intros [= _ <-]. done.
Qed.

(** What [create_payment] has done when it answers, and when it does not. *)
Lemma create_payment_cases payload payment_id now db r db' :
  create_payment payload payment_id now db = (r, db') →
  (db' = db ∧ ∃ e, r = InternalServerError e)
  ∨ ∃ cents,
      round (PaymentCreate.amount payload * 100)%float = Val cents
      ∧ db !! payment_id = None
      ∧ - 2 ^ 63 ≤ cents < 2 ^ 63
      ∧ let orm := PaymentORM.mk payment_id cents (PaymentCreate.currency payload)
                     (PaymentCreate.method payload) PaymentStatus.PENDING
                     (PaymentCreate.description payload) now in
        r = with_status 201 (to_read orm) ∧ db' = <[payment_id := orm]> db.
Proof.
  unfold create_payment, insert_row.
  destruct (round _) as [cents|e] eqn:Hround; [|intros [= <- <-]; left; eauto].
  cbn [PaymentORM.id PaymentORM.amount_cents].
  destruct (decide (is_Some (db !! payment_id))) as [|Hfree];
    [intros [= <- <-]; left; eauto|].
  destruct (_ || _) eqn:Hrange; [intros [= <- <-]; left; eauto|].
  intros [= <- <-]. right. exists cents.
  apply orb_false_iff in Hrange as [?%Z.ltb_ge ?%Z.leb_gt].
  split; [done|]. split; [by apply eq_None_not_Some|]. split; [lia|]. done.
Qed.

Lemma post_payments_cases body payment_id now db r db' :
  post_payments upper body payment_id now db = (r, db') →
  (db' = db ∧ ((∃ e, r = InternalServerError e) ∨ ∃ errors, r = RequestValidationError errors))
  ∨ ∃ payload, validate_PaymentCreate upper body = Val (inr payload)
               ∧ create_payment payload payment_id now db = (r, db').
Proof.
  unfold post_payments.
  destruct (validate_PaymentCreate upper body) as [[errors|payload]|e];
    [intros [= <- <-]; left; eauto | | intros [= <- <-]; left; eauto].
  intros H. right. by exists payload.
Qed.

Lemma validate_PaymentCreate_fields body payload :
  validate_PaymentCreate upper body = Val (inr payload) →
  (0 <? PaymentCreate.amount payload)%float = true
  ∧ PaymentCreate.amount payload = PaymentCreate.amount body
  ∧ PaymentCreate.currency payload = upper (PaymentCreate.currency body)
  ∧ len (PaymentCreate.currency body) = 3
  ∧ PaymentCreate.method payload = PaymentCreate.method body
  ∧ 1 ≤ len (PaymentCreate.method body) ≤ 50
  ∧ PaymentCreate.description payload = PaymentCreate.description body.
Proof.
  unfold validate_PaymentCreate, validate_amount, validate_currency, validate_method,
    validate_description.
  destruct (0 <? PaymentCreate.amount body)%float eqn:Hpos;
    destruct (Z.ltb_spec (len (PaymentCreate.currency body)) 3);
    destruct (Z.ltb_spec 3 (len (PaymentCreate.currency body)));
    destruct (Z.ltb_spec (len (PaymentCreate.method body)) 1);
    destruct (Z.ltb_spec 50 (len (PaymentCreate.method body)));
    destruct (PaymentCreate.description body) as [d|];
    try destruct (Z.ltb_spec 255 (len d));
    cbn [value_of]; destruct (check_amount_precision _) as [[|? ?]|?];
    cbn; try discriminate; intros [= <-]; cbn; repeat split; try done; lia.
Qed.

(** X8. A payment that [POST /payments] answers with 201 is stored under
    the fresh identifier and read back by [GET /payments/{id}] as the very
    body of the 201: pending, with the currency uppercased and the other
    fields as sent; the identifier was unused and no other record changed.
    A body that fails validation leaves the table as it was. *)
Theorem created_payment_is_read_back
    (body : PaymentCreate.t) (payment_id : str) (now : Z)
    (db db' : gmap (list N) PaymentORM.t) (r : response PaymentRead.t) :
  post_payments upper body payment_id now db = (r, db') →
  (∀ code created, r = OK code created →
      code = 201
      ∧ get_payment payment_id db' = OK 200 created
      ∧ db !! payment_id = None
      ∧ (∀ k, k ≠ payment_id → db' !! k = db !! k)
      ∧ PaymentRead.id created = payment_id
      ∧ PaymentRead.status created = PaymentStatus.PENDING
      ∧ PaymentRead.currency created = upper (PaymentCreate.currency body)
      ∧ PaymentRead.method created = PaymentCreate.method body
      ∧ PaymentRead.description created = PaymentCreate.description body
      ∧ PaymentRead.created_at created = now)
  ∧ (∀ errors, r = RequestValidationError errors → db' = db)
  ∧ (∀ code detail, r ≠ HTTPException code detail).
Proof.
  intros [[-> [[e ->]|[errors ->]]]|(payload & Hvalid & Hcreate)]%post_payments_cases;
    [done..|].
  apply validate_PaymentCreate_fields in Hvalid
    as (_ & _ & Hcurrency & _ & Hmethod & _ & Hdescription).
  apply create_payment_cases in Hcreate
    as [[-> [e ->]]|(cents & _ & Hfree & _ & -> & ->)]; [done|].
  split.
  - intros code created Hread.
    assert (code = 201) as ->.
    { unfold to_read in Hread. destruct (float_of_int _); cbn in Hread; congruence. }
    apply to_read_with_status in Hread.
    destruct (to_read_fields _ _ _ Hread) as (? & ? & ? & ? & ? & ?).
    split; [done|]. split.
    { unfold get_payment. by rewrite lookup_insert_eq. }
    split; [done|]. split; [intros k Hk; by rewrite lookup_insert_ne|].
    cbn in *. repeat split; congruence.
  - unfold to_read. destruct (float_of_int _); cbn; done.
Qed.

(** X9. [DELETE /payments/{id}] answers 204 exactly when the record
    exists; afterwards the record is gone for [GET] and for a second
    [DELETE] (both 404), and every other record is as it was. *)
Theorem delete_payment_removes_one (payment_id : str) (db : gmap (list N) PaymentORM.t) :
  let r := (delete_payment payment_id db).1 in
  let db' := (delete_payment payment_id db).2 in
  (r = if decide (is_Some (db !! payment_id)) then OK 204 tt
       else HTTPException 404 (lit "payment not found"))
  ∧ (db !! payment_id = None → db' = db)
  ∧ get_payment payment_id db' = HTTPException 404 (lit "payment not found")
  ∧ delete_payment payment_id db' = (HTTPException 404 (lit "payment not found"), db')
  ∧ ∀ k, k ≠ payment_id → get_payment k db' = get_payment k db.
Proof.
  unfold delete_payment, get_payment.
  destruct (db !! payment_id) as [row|] eqn:Hrow; cbn.
  - rewrite decide_True by done. rewrite lookup_delete_eq.
    repeat split; try done. intros k Hk. by rewrite lookup_delete_ne.
  - rewrite decide_False by (by intros [? ?]). rewrite Hrow. done.
Qed.

(** One request leaves a record it does not delete in place, with the
    fields fixed at creation, and with its status unchanged or moved along
    the transition table. *)
Lemma handle_keeps r db k row :
  db !! k = Some row → r ≠ DELETE k →
  ∃ row', handle lower upper r db !! k = Some row'
    ∧ PaymentORM.id row' = PaymentORM.id row
    ∧ PaymentORM.amount_cents row' = PaymentORM.amount_cents row
    ∧ PaymentORM.currency row' = PaymentORM.currency row
    ∧ PaymentORM.method row' = PaymentORM.method row
    ∧ PaymentORM.created_at row' = PaymentORM.created_at row
    ∧ (PaymentORM.status row' = PaymentORM.status row
       ∨ transition (PaymentORM.status row) (PaymentORM.status row')).
Proof.
  intros Hrow Hdel. destruct r as [body payment_id now|payment_id body|payment_id]; cbn.
  - destruct (post_payments upper body payment_id now db) as [r db'] eqn:Hpost.
    apply post_payments_cases in Hpost as [[-> _]|(payload & _ & Hcreate)].
    { exists row. cbn. auto 10. }
    apply create_payment_cases in Hcreate as [[-> _]|(cents & _ & Hfree & _ & _ & ->)].
    { exists row. cbn. auto 10. }
    exists row. cbn. rewrite lookup_insert_ne by congruence. auto 10.
  - unfold put_payments. destruct (validate_PaymentUpdate _) as [errors|payload].
    { exists row. cbn. auto 10. }
    unfold update_payment.
    destruct (decide (payment_id = k)) as [->|Hk].
    + rewrite Hrow.
      set (described := match PaymentUpdate.description payload with
                        | Some d => set_description (Some d) row
                        | None => row
                        end).
      assert (PaymentORM.id described = PaymentORM.id row
              ∧ PaymentORM.amount_cents described = PaymentORM.amount_cents row
              ∧ PaymentORM.currency described = PaymentORM.currency row
              ∧ PaymentORM.method described = PaymentORM.method row
              ∧ PaymentORM.created_at described = PaymentORM.created_at row
              ∧ PaymentORM.status described = PaymentORM.status row)
        as (? & ? & ? & ? & ? & Hst)
        by (subst described; by destruct (PaymentUpdate.description payload)).
      destruct (PaymentUpdate.status payload) as [st|].
      * destruct (decide (st ∈ allowed_transitions (PaymentORM.status described)))
          as [Hin|_].
        { cbn. rewrite lookup_insert_eq. eexists. split; [done|]. cbn.
          repeat split; try done. right. apply allowed_transitions_table.
          by rewrite <- Hst. }
        destruct (decide (st ≠ PaymentORM.status described)) as [_|Hsame].
        { exists row. cbn. auto 10. }
        cbn. rewrite lookup_insert_eq. eexists. split; [done|]. cbn.
        repeat split; try done. left. apply dec_stable in Hsame. congruence.
      * cbn. rewrite lookup_insert_eq. eexists. split; [done|]. auto 10.
    + destruct (db !! payment_id) as [other|]; [|exists row; cbn; auto 10].
      destruct (match PaymentUpdate.status payload with Some _ => _ | None => _ end);
        cbn; [exists row; auto 10|].
      rewrite lookup_insert_ne by done. exists row. auto 10.
  - unfold delete_payment. destruct (db !! payment_id) eqn:?; cbn; [|exists row; auto 10].
    rewrite lookup_delete_ne by congruence. exists row. auto 10.
Qed.

Lemma transition_from_terminal a b :
  a ∈ [PaymentStatus.FAILED; PaymentStatus.REFUNDED] → ¬ transition a b.
Proof.
  unfold transition, transition_table. rewrite !elem_of_cons, !elem_of_nil.
  intros [->|[->|[]]] [H|[H|[H|[H|[]]]]]; apply pair_eq in H as [H _];
    vm_compute in H; discriminate.
Qed.

(** X10. Through any sequence of POST, PUT and DELETE requests that does
    not delete it, a record stays in the table with the identifier, amount,
    currency, method and creation time it was created with; its status
    only moves along the transition table, so a failed or refunded record
    keeps its status for good. *)
Theorem records_keep_what_they_were_created_with
    (requests : list request) (db : gmap (list N) PaymentORM.t)
    (k : str) (row : PaymentORM.t) :
  db !! k = Some row → DELETE k ∉ requests →
  ∃ row', serve lower upper requests db !! k = Some row'
    ∧ PaymentORM.id row' = PaymentORM.id row
    ∧ PaymentORM.amount_cents row' = PaymentORM.amount_cents row
    ∧ PaymentORM.currency row' = PaymentORM.currency row
    ∧ PaymentORM.method row' = PaymentORM.method row
    ∧ PaymentORM.created_at row' = PaymentORM.created_at row
    ∧ rtc transition (PaymentORM.status row) (PaymentORM.status row')
    ∧ (PaymentORM.status row ∈ [PaymentStatus.FAILED; PaymentStatus.REFUNDED] →
       PaymentORM.status row' = PaymentORM.status row).
Proof.
  revert db row. induction requests as [|r requests IH]; intros db row Hrow Hdel.
  { exists row. cbn. repeat split; try done. }
  apply not_elem_of_cons in Hdel as [Hr Hrest].
  destruct (handle_keeps r db k row Hrow) as (row1 & Hrow1 & ? & ? & ? & ? & ? & Hst1);
    [done|].
  destruct (IH _ _ Hrow1 Hrest) as (row' & Hrow' & ? & ? & ? & ? & ? & Hrtc & Hterm).
  exists row'. cbn. split; [done|]. repeat split; try congruence.
  - destruct Hst1 as [<-|Hstep]; [done|]. by eapply rtc_l.
  - intros Hin. destruct Hst1 as [Heq|Hstep].
    + rewrite <- Heq. apply Hterm. by rewrite Heq.
    + by destruct (transition_from_terminal _ _ Hin Hstep).
Qed.

End crud.


(** ** The CRUD service: what every stored row satisfies *)

Section crud_invariant.
Import py main main_spec main_routes.

(** [str.lower] and [str.upper] *)
Variables lower upper : str → str.

(** Rounding to an integer keeps the sign. *)
Lemma round_sign (f : float) (n : Z) :
  round f = Val n →
  match Prim2SF f with
  | S754_finite false _ _ => 0 ≤ n
  | S754_finite true _ _ => n ≤ 0
  | _ => n = 0
  end.
Proof.
  unfold round. destruct (Prim2SF f) as [s|s| |s m e]; try done; [by intros [= <-]|].
  intros [= <-].
  assert (0 ≤ match e with
              | Z.neg p =>
                  match 2 * (Z.pos m mod 2 ^ Z.pos p) ?= 2 ^ Z.pos p with
                  | Eq => if Z.even (Z.pos m / 2 ^ Z.pos p)
                          then Z.pos m / 2 ^ Z.pos p else Z.pos m / 2 ^ Z.pos p + 1
                  | Lt => Z.pos m / 2 ^ Z.pos p
                  | Gt => Z.pos m / 2 ^ Z.pos p + 1
                  end
              | _ => Z.pos m * 2 ^ e
              end) as Hn.
  { destruct e as [|p|p].
    - lia.
    - assert (0 < 2 ^ Z.pos p) by (apply Z.pow_pos_nonneg; lia). nia.
    - assert (0 < 2 ^ Z.pos p) by (apply Z.pow_pos_nonneg; lia).
      assert (0 ≤ Z.pos m / 2 ^ Z.pos p) by (apply Z.div_pos; lia).
      destruct (_ ?= _); [destruct (Z.even _)|..]; lia. }
  destruct s; lia.
Qed.

(** The cents of a positive amount are not negative. *)
Lemma cents_of_positive_amount (amount : float) (cents : Z) :
  (0 <? amount)%float = true → round (amount * 100)%float = Val cents → 0 ≤ cents.
Proof.
  intros Hpos Hround. apply round_sign in Hround.
  rewrite ltb_spec in Hpos. rewrite mul_spec in Hround.
  replace (Prim2SF 0) with (S754_zero false) in Hpos by (vm_compute; reflexivity).
  replace (Prim2SF 100) with (S754_finite false 7036874417766400 (-46)) in Hround
    by (vm_compute; reflexivity).
  unfold SF64mul, SFmul in Hround. unfold SFltb, SFcompare in Hpos.
  destruct (Prim2SF amount) as [s|s| |s m e]; try done; try lia.
  destruct s; [done|]. unfold binary_round_aux in Hround.
  destruct (shr_fexp _ _ _ _ _) as [mrs' e'].
  destruct (shr_fexp _ _ _ _ _) as [mrs'' e''].
  destruct (shr_m mrs''); [lia| |lia].
  destruct (_ <=? _); cbn in Hround; lia.
Qed.

Lemma well_formed_insert db k row :
  well_formed db →
  PaymentORM.id row = k → PaymentORM.status row ∈ statuses →
  0 ≤ PaymentORM.amount_cents row < 2 ^ 63 →
  well_formed (<[k := row]> db).
Proof. intros Hdb ? ? ?. by apply map_Forall_insert_2. Qed.

Lemma allowed_transitions_statuses current st :
  st ∈ allowed_transitions current → st ∈ statuses.
Proof.
  unfold allowed_transitions, statuses.
  destruct (decide (current = PaymentStatus.PENDING)) as [_|_].
  { rewrite !elem_of_cons, elem_of_nil. intros [->|[->|[->|[]]]]; auto 10. }
  destruct (decide (current = PaymentStatus.COMPLETED)) as [_|_].
  { rewrite !elem_of_cons, elem_of_nil. intros [->|[]]; auto 10. }
  repeat destruct (decide _); intros H; by apply elem_of_nil in H.
Qed.

Lemma handle_well_formed r db :
  well_formed db → well_formed (handle lower upper r db).
Proof.
  intros Hdb. destruct r as [body payment_id now|payment_id body|payment_id]; cbn.
  - unfold post_payments.
    destruct (validate_PaymentCreate upper body) as [[errors|payload]|e] eqn:Hvalid;
      [done| |done].
    destruct (validate_PaymentCreate_fields upper _ _ Hvalid) as (Hpos & _).
    unfold create_payment, insert_row.
    destruct (round _) as [cents|e] eqn:Hround; [|done].
    cbn [PaymentORM.id PaymentORM.amount_cents].
    destruct (decide _); [done|]. destruct (_ || _) eqn:Hrange; [done|].
    apply orb_false_iff in Hrange as [?%Z.ltb_ge ?%Z.leb_gt].
    cbn. apply well_formed_insert; cbn; [done..| |].
    + unfold statuses. apply list_elem_of_here.
    + split; [|lia]. by eapply cents_of_positive_amount.
  - unfold put_payments. destruct (validate_PaymentUpdate _ _) as [errors|payload]; [done|].
    unfold update_payment. destruct (db !! payment_id) as [row|] eqn:Hrow; [|done].
    destruct (Hdb _ _ Hrow) as (Hid & Hst & Hamount).
    set (described := match PaymentUpdate.description payload with
                      | Some d => set_description (Some d) row
                      | None => row
                      end).
    assert (PaymentORM.id described = payment_id
            ∧ PaymentORM.status described ∈ statuses
            ∧ 0 ≤ PaymentORM.amount_cents described < 2 ^ 63) as (? & ? & ?)
      by (subst described; by destruct (PaymentUpdate.description payload)).
    destruct (PaymentUpdate.status payload) as [st|].
    + destruct (decide (st ∈ allowed_transitions _)) as [Hin|_].
      { cbn. apply well_formed_insert; cbn; [done..| |done].
        by eapply allowed_transitions_statuses. }
      destruct (decide (st ≠ _)) as [_|Hsame]; [done|].
      apply dec_stable in Hsame as ->.
      cbn. by apply well_formed_insert.
    + cbn. by apply well_formed_insert.
  - unfold delete_payment. destruct (db !! payment_id); [|done].
    cbn. by apply map_Forall_delete.
Qed.

(** X11. Whatever POST, PUT and DELETE requests are served, with whatever
    bodies, every row of the table is stored under its own identifier, has
    one of the four statuses, and holds a non-negative number of cents
    below 2^63. *)
Theorem served_table_stays_well_formed
    (requests : list request) (db : gmap (list N) PaymentORM.t) :
  well_formed db → well_formed (serve lower upper requests db).
Proof.
  revert db. induction requests as [|r requests IH]; intros db Hdb; [done|].
  cbn. apply IH. by apply handle_well_formed.
Qed.

End crud_invariant.


(** ** Sample runs of the properties above *)

Section further_witnesses.
Import py models main main_spec main_routes.

#[local] Set Warnings "-inexact-float".

Lemma ledger_failures_change_nothing_witness :
  (debit (mkAccount 1 10000) 10001 one_account).1 = Raise (ValueError "insufficient funds")
  ∧ (debit (mkAccount 1 10000) 10001 one_account).2 = one_account.
Proof.
  split; [vm_compute; reflexivity|].
  apply (proj1 (proj2 (ledger_failures_change_nothing (mkAccount 1 10000) 10001 refund_1 0
                         one_account _ (ValueError "insufficient funds")))).
  vm_compute. reflexivity.
Defined.

Lemma account_calls_touch_one_row_witness :
  ∃ r s', call (mkAccount 2 20000) (Debit 6000) two_refunds = (r, s')
    ∧ transactions s' = transactions two_refunds
    ∧ refunds s' = refunds two_refunds
    ∧ ∀ k, k ≠ 2 → accounts s' !! k = accounts two_refunds !! k.
Proof.
  do 2 eexists. split; [vm_compute; reflexivity|].
  eapply (account_calls_touch_one_row (mkAccount 2 20000) (Debit 6000) two_refunds).
  vm_compute. reflexivity.
Defined.

Lemma created_payment_is_read_back_witness :
  ∃ r db',
    post_payments ascii_upper (precision_spec.body_of 12.34) (lit "p6") 6000000 sample_table
    = (r, db')
    ∧ (∀ code created, r = OK code created →
        code = 201
        ∧ get_payment (lit "p6") db' = OK 200 created
        ∧ sample_table !! lit "p6" = None
        ∧ (∀ k, k ≠ lit "p6" → db' !! k = sample_table !! k)
        ∧ PaymentRead.id created = lit "p6"
        ∧ PaymentRead.status created = PaymentStatus.PENDING
        ∧ PaymentRead.currency created = ascii_upper (lit "usd")
        ∧ PaymentRead.method created = lit "card"
        ∧ PaymentRead.description created = None
        ∧ PaymentRead.created_at created = 6000000)
    ∧ (∀ errors, r = RequestValidationError errors → db' = sample_table)
    ∧ (∀ code detail, r ≠ HTTPException code detail).
Proof.
  do 2 eexists. split; [vm_compute; reflexivity|].
  eapply (created_payment_is_read_back ascii_upper (precision_spec.body_of 12.34) (lit "p6")
            6000000 sample_table).
  vm_compute. reflexivity.
Defined.

Lemma records_keep_what_they_were_created_with_witness :
  let requests :=
    [ PUT (lit "p2") (PaymentUpdate.mk (Some (lit "sent back")) (Some (lit "REFUNDED")));
      PUT (lit "p2") (PaymentUpdate.mk None (Some (lit "completed")));
      DELETE (lit "p1");
      POST (precision_spec.body_of 12.34) (lit "p2") 6000000 ] in
  sample_table !! lit "p2" = Some (sample_row 2 PaymentStatus.COMPLETED)
  ∧ (DELETE (lit "p2") ∉ requests)
  ∧ ∃ row', serve ascii_lower ascii_upper requests sample_table !! lit "p2" = Some row'
      ∧ PaymentORM.id row' = lit "p2"
      ∧ PaymentORM.amount_cents row' = 2468
      ∧ PaymentORM.currency row' = lit "USD"
      ∧ PaymentORM.method row' = lit "card"
      ∧ PaymentORM.created_at row' = 2000000
      ∧ rtc transition PaymentStatus.COMPLETED (PaymentORM.status row')
      ∧ (PaymentStatus.COMPLETED ∈ [PaymentStatus.FAILED; PaymentStatus.REFUNDED] →
         PaymentORM.status row' = PaymentStatus.COMPLETED).
Proof.
  intros requests.
  assert (DELETE (lit "p2") ∉ requests) as Hkept.
  { subst requests. rewrite !not_elem_of_cons. repeat split; try discriminate.
    apply not_elem_of_nil. }
  split; [vm_compute; reflexivity|]. split; [exact Hkept|].
  apply (records_keep_what_they_were_created_with ascii_lower ascii_upper requests
           sample_table (lit "p2") (sample_row 2 PaymentStatus.COMPLETED));
    [vm_compute; reflexivity | exact Hkept].
Defined.

Lemma served_table_stays_well_formed_witness :
  let requests :=
    [ POST (precision_spec.body_of 12.34) (lit "p6") 6000000;
      PUT (lit "p6") (PaymentUpdate.mk None (Some (lit "Failed")));
      DELETE (lit "p1") ] in
  well_formed sample_table
  ∧ well_formed (serve ascii_lower ascii_upper requests sample_table).
Proof.
  intros requests.
  assert (well_formed sample_table) as Hdb
    by (apply (bool_decide_unpack _); vm_compute; reflexivity).
  split; [exact Hdb|].
  apply (served_table_stays_well_formed ascii_lower ascii_upper requests sample_table Hdb).
Defined.

End further_witnesses.


(** ** The CRUD service: walking the pages of the listing *)

Section paging.
Import py main main_spec main_routes.

(** [str.lower] and [str.upper] *)
Variables lower upper : str → str.

#[local] Instance newer_first_total' : Total newer_first.
Proof. intros a b. unfold newer_first. lia. Qed.

#[local] Instance newer_first_trans' : Transitive newer_first.
Proof. intros a b c. unfold newer_first. lia. Qed.



End paging.

Section paging_witness.
Import py main main_spec main_routes.


End paging_witness.


(** ** The webhook endpoints: every answer *)

Section webhook_outcomes.
Import py fastapi payments webhooks pyjson payments_webhook signature_spec.

(** The digest is 32 bytes, written as 64 hexadecimal characters. *)
Lemma round256_length (h : list Z) (kw : Z * Z) :
  length h = 8%nat → length (round256 h kw) = 8%nat.
Proof. by destruct h as [|a [|b [|c [|d [|e [|f [|g [|hh [|]]]]]]]]]. Qed.

Lemma compress_length (h block : list Z) :
  length h = 8%nat → length (compress h block) = 8%nat.
Proof.
  intros Hh. unfold compress. rewrite length_zip_with.
  assert (∀ kws h0, length h0 = 8%nat → length (foldl round256 h0 kws) = 8%nat) as Hfold.
  { induction kws as [|kw kws IH]; intros h0 Hh0; [done|].
    cbn. by apply IH, round256_length. }
  rewrite Hfold by done. lia.
Qed.

Lemma blocks_length (fuel : nat) (h bs : list Z) :
  length h = 8%nat → length (blocks fuel h bs) = 8%nat.
Proof.
  revert h bs. induction fuel as [|fuel IH]; intros h bs Hh; [done|].
  cbn. destruct bs; [done|]. by apply IH, compress_length.
Qed.

Lemma sha256_length (msg : list Z) : length (sha256 msg) = 32%nat.
Proof.
  unfold sha256.
  pose proof (blocks_length (length (pad msg)) H256 (pad msg) eq_refl) as Hlen.
  by destruct (blocks _ _ _) as [|a [|b [|c [|d [|e [|f [|g [|hh [|]]]]]]]]].
Qed.

Lemma hex_length (bs : list Z) : length (hex bs) = (2 * length bs)%nat.
Proof.
  unfold hex. induction bs as [|b bs IH]; [done|].
  rewrite fmap_cons. change (mjoin (?l :: ?ls)) with (l ++ mjoin ls).
  rewrite length_app, IH. cbn. lia.
Qed.

Lemma hmac_hexdigest_length (key msg : bytes) : length (hmac_hexdigest key msg) = 64%nat.
Proof. unfold hmac_hexdigest, hmac_sha256. by rewrite hex_length, sha256_length. Qed.

(** X13. With the generic secret configured and encodable, the generic
    endpoint lets a request through to the JSON parser exactly when the
    X-Signature header is the lowercase hex HMAC-SHA256 of the raw body;
    any other header made of ASCII characters, the absent one included, is
    answered by the 400 "Invalid signature"; a header with a non-ASCII
    character cannot be compared, and the [TypeError] leaves the endpoint
    unhandled.  With no secret configured the header is not looked at. *)
Theorem generic_webhook_outcomes
    (T : Type) (json_loads_utf8 : bytes → option T)
    (cfg : settings) (raw_body : bytes) (signature : option string)
    (secret : str) (key : bytes) :
  WEBHOOK_SECRET cfg = Some secret → secret ≠ [] → encode_utf8 secret = Val key →
  let parsed := match json_loads_utf8 raw_body with
                | Some payload => received payload
                | None => raised 400 (lit "Invalid JSON")
                end in
  (header_str signature = hmac_hexdigest key raw_body →
     generic_webhook T json_loads_utf8 cfg raw_body signature = parsed)
  ∧ (header_str signature ≠ hmac_hexdigest key raw_body →
     is_ascii (header_str signature) = true →
     generic_webhook T json_loads_utf8 cfg raw_body signature
     = raised 400 (lit "Invalid signature"))
  ∧ (is_ascii (header_str signature) = false →
     generic_webhook T json_loads_utf8 cfg raw_body signature = unhandled TypeError)
  ∧ (∀ cfg', ¬ configured (WEBHOOK_SECRET cfg') →
     generic_webhook T json_loads_utf8 cfg' raw_body signature = parsed).
Proof.
  intros Hcfg Hsecret Hkey parsed. unfold generic_webhook. rewrite Hcfg.
  destruct secret as [|c cs]; [done|].
  pose proof (hmac_hexdigest_ascii key raw_body) as Hascii.
  assert (_verify_hmac_signature raw_body (header_str signature) (c :: cs)
          = if is_ascii (header_str signature)
            then Val (bool_decide (hmac_hexdigest key raw_body = header_str signature))
            else Exc TypeError) as ->.
  { unfold _verify_hmac_signature. destruct (header_str signature) as [|x xs] eqn:Hsig.
    - change (is_ascii []) with true. cbv iota.
      rewrite bool_decide_eq_false_2; [done|].
      intros Hd. pose proof (hmac_hexdigest_length key raw_body) as Hlen.
      by rewrite Hd in Hlen.
    - rewrite Hkey. by apply compare_digest_ascii. }
  split; [|split; [|split]].
  - intros ->. rewrite Hascii. by rewrite bool_decide_eq_true_2.
  - intros Hne ->. by rewrite bool_decide_eq_false_2.
  - by intros ->.
  - intros cfg' Hnone. destruct (WEBHOOK_SECRET cfg') as [[|c' cs']|]; [done| |done].
    destruct Hnone. by exists c', cs'.
Qed.

(** X14. With the gateway webhook secret configured and encodable, the
    gateway webhook answers [{"status": "ok"}] exactly when the
    X-Razorpay-Signature header is the lowercase hex HMAC-SHA256 of the raw
    body and the body parses to a JSON object.  An absent or empty header
    is the 400 "Missing signature header"; any other ASCII header that is
    not the digest is the 400 "Invalid signature"; a header with a
    non-ASCII character, and a correctly signed body that is not a JSON
    object, end in the 500 "Webhook processing error".  With no secret
    configured every request is answered by the 500 configuration error. *)
Theorem razorpay_webhook_outcomes
    (request_json : bytes → option json)
    (secret : str) (key : bytes) (signature : option string) (body : bytes) :
  secret ≠ [] → encode_utf8 secret = Val key →
  let answer := razorpay_webhook request_json secret signature body in
  (answer = OK (JObject [(lit "status", JString (lit "ok"))])
   ↔ header_str signature = hmac_hexdigest key body
     ∧ ∃ event, request_json body = Some (JObject event))
  ∧ (header_str signature = [] → answer = HTTPException 400 (lit "Missing signature header"))
  ∧ (header_str signature ≠ [] → header_str signature ≠ hmac_hexdigest key body →
     is_ascii (header_str signature) = true →
     answer = HTTPException 400 (lit "Invalid signature"))
  ∧ (is_ascii (header_str signature) = false →
     answer = HTTPException 500 (lit "Webhook processing error"))
  ∧ (header_str signature = hmac_hexdigest key body →
     (∀ event, request_json body ≠ Some (JObject event)) →
     answer = HTTPException 500 (lit "Webhook processing error"))
  ∧ razorpay_webhook request_json [] signature body
    = HTTPException 500 (lit "Webhook secret not configured").
Proof.
  intros Hsecret Hkey answer. subst answer. unfold razorpay_webhook.
  destruct secret as [|c cs]; [done|].
  pose proof (hmac_hexdigest_ascii key body) as Hascii.
  pose proof (hmac_hexdigest_length key body) as Hlen.
  destruct (header_str signature) as [|x xs] eqn:Hsig.
  { split; [|split; [|split; [|split; [|split]]]]; try done.
    - split; [done|]. intros [Hd _]. by rewrite <- Hd in Hlen.
    - intros Hd. by rewrite <- Hd in Hlen. }
  assert (_verify_signature (x :: xs) body (c :: cs)
          = if is_ascii (x :: xs)
            then Val (bool_decide (hmac_hexdigest key body = x :: xs))
            else Exc TypeError) as ->.
  { unfold _verify_signature. rewrite Hkey. by apply compare_digest_ascii. }
  split; [|split; [|split; [|split; [|split]]]]; try done.
  - destruct (is_ascii (x :: xs)) eqn:Hx.
    2: { split; [done|]. intros [Hd _]. rewrite Hd in Hx. congruence. }
    case_bool_decide as Hd.
    + destruct (request_json body) as [[| | | | | |event]|]; split; try done;
        try (by intros [_ [event' [=]]]); eauto.
    + split; [done|]. intros [Hd' _]. by destruct Hd.
  - intros _ Hne ->. by rewrite bool_decide_eq_false_2.
  - by intros ->.
  - intros Hd Hnot. rewrite Hd, Hascii, bool_decide_eq_true_2 by done.
    destruct (request_json body) as [[| | | | | |event]|]; try done.
    by destruct (Hnot event).
Qed.

Lemma generic_webhook_outcomes_witness :
  let signature := Some "a3f1"%string in
  let parsed := match only_empty_object (blit "{}") with
                | Some payload => received payload
                | None => raised 400 (lit "Invalid JSON")
                end in
  WEBHOOK_SECRET stripe_settings = Some (lit "generic") ∧ lit "generic" ≠ []
  ∧ encode_utf8 (lit "generic") = Val (blit "generic")
  ∧ (header_str signature = hmac_hexdigest (blit "generic") (blit "{}") →
     generic_webhook unit only_empty_object stripe_settings (blit "{}") signature = parsed)
  ∧ (header_str signature ≠ hmac_hexdigest (blit "generic") (blit "{}") →
     is_ascii (header_str signature) = true →
     generic_webhook unit only_empty_object stripe_settings (blit "{}") signature
     = raised 400 (lit "Invalid signature"))
  ∧ (is_ascii (header_str signature) = false →
     generic_webhook unit only_empty_object stripe_settings (blit "{}") signature
     = unhandled TypeError)
  ∧ (∀ cfg', ¬ configured (WEBHOOK_SECRET cfg') →
     generic_webhook unit only_empty_object cfg' (blit "{}") signature = parsed).
Proof.
  intros signature parsed.
  split; [reflexivity|]. split; [discriminate|]. split; [vm_compute; reflexivity|].
  apply (generic_webhook_outcomes unit only_empty_object stripe_settings (blit "{}") signature
           (lit "generic") (blit "generic"));
    [reflexivity | discriminate | vm_compute; reflexivity].
Defined.

Lemma razorpay_webhook_outcomes_witness :
  let signature := Some "a3f1"%string in
  let answer := razorpay_webhook two_documents (lit "whsec") signature (blit "[]") in
  lit "whsec" ≠ [] ∧ encode_utf8 (lit "whsec") = Val (blit "whsec")
  ∧ (answer = OK (JObject [(lit "status", JString (lit "ok"))])
     ↔ header_str signature = hmac_hexdigest (blit "whsec") (blit "[]")
       ∧ ∃ event, two_documents (blit "[]") = Some (JObject event))
  ∧ (header_str signature = [] →
     answer = HTTPException 400 (lit "Missing signature header"))
  ∧ (header_str signature ≠ [] →
     header_str signature ≠ hmac_hexdigest (blit "whsec") (blit "[]") →
     is_ascii (header_str signature) = true →
     answer = HTTPException 400 (lit "Invalid signature"))
  ∧ (is_ascii (header_str signature) = false →
     answer = HTTPException 500 (lit "Webhook processing error"))
  ∧ (header_str signature = hmac_hexdigest (blit "whsec") (blit "[]") →
     (∀ event, two_documents (blit "[]") ≠ Some (JObject event)) →
     answer = HTTPException 500 (lit "Webhook processing error"))
  ∧ razorpay_webhook two_documents [] signature (blit "[]")
    = HTTPException 500 (lit "Webhook secret not configured").
Proof.
  intros signature answer.
  split; [discriminate|]. split; [vm_compute; reflexivity|].
  apply (razorpay_webhook_outcomes two_documents (lit "whsec") (blit "whsec") signature
           (blit "[]")); [discriminate | vm_compute; reflexivity].
Defined.

End webhook_outcomes.


(** ** The gateway order router: amounts in paise *)

Section paise.
Import decimal payments_amounts.

Ltac case_ltb :=
  match goal with |- context [?a <? ?b] => destruct (Z.ltb_spec a b) end.

Lemma digits_from_pos (fuel : nat) (n : Z) : 1 ≤ digits_from fuel n.
Proof.
  revert n. induction fuel as [|fuel IH]; intros n; cbn; [lia|].
  destruct (n <? 10); [lia|]. specialize (IH (n / 10)). lia.
Qed.

Lemma digits_from_spec (fuel : nat) (n k : Z) :
  0 ≤ n < 2 ^ Z.of_nat fuel → 1 ≤ k → digits_from fuel n ≤ k ↔ n < 10 ^ k.
Proof.
  revert n k. induction fuel as [|fuel IH]; intros n k Hn Hk.
  - cbn in *. assert (0 < 10 ^ k) by (apply Z.pow_pos_nonneg; lia). lia.
  - cbn [digits_from]. assert (10 ≤ 10 ^ k).
    { change 10 with (10 ^ 1) at 1. apply Z.pow_le_mono_r; lia. }
    destruct (Z.ltb_spec n 10); [lia|].
    assert (0 ≤ n / 10 < 2 ^ Z.of_nat fuel) as Hdiv.
    { split; [apply Z.div_pos; lia|]. apply Z.div_lt_upper_bound; [lia|].
      rewrite Nat2Z.inj_succ, Z.pow_succ_r in Hn by lia. lia. }
    destruct (decide (k = 1)) as [->|].
    { pose proof (digits_from_pos fuel (n / 10)). change (10 ^ 1) with 10. lia. }
    specialize (IH (n / 10) (k - 1) Hdiv ltac:(lia)).
    replace (10 ^ k) with (10 * 10 ^ (k - 1))
      by (rewrite <- Z.pow_succ_r by lia; f_equal; lia).
    assert (n / 10 < 10 ^ (k - 1) ↔ n < 10 * 10 ^ (k - 1)) as <-.
    { split; intros ?.
      - pose proof (Z.div_mod n 10 ltac:(lia)). pose proof (Z.mod_pos_bound n 10). lia.
      - apply Z.div_lt_upper_bound; lia. }
    lia.
Qed.

Lemma ndigits_le (n k : Z) : 0 ≤ n → 1 ≤ k → ndigits n ≤ k ↔ n < 10 ^ k.
Proof.
  intros Hn Hk. unfold ndigits. apply digits_from_spec; [|done].
  split; [done|]. rewrite Nat2Z.inj_succ.
  destruct (decide (n = 0)) as [->|]; [by cbn|].
  rewrite Z2Nat.id by apply Z.log2_nonneg. apply Z.log2_spec. lia.
Qed.

Lemma ndigits_pos (n : Z) : 1 ≤ ndigits n.
Proof. apply digits_from_pos. Qed.

(** Rounding half to even gives a nearest multiple, the even one of two. *)
Lemma round_half_even_spec (c k : Z) :
  0 ≤ c → 0 ≤ k →
  let n := round_half_even c k in
  0 ≤ n ≤ c / 10 ^ k + 1
  ∧ Z.abs (2 * (c - n * 10 ^ k)) ≤ 10 ^ k
  ∧ (Z.abs (2 * (c - n * 10 ^ k)) = 10 ^ k → Z.even n = true).
Proof.
  intros Hc Hk. unfold round_half_even.
  assert (0 < 10 ^ k) as Hd by (apply Z.pow_pos_nonneg; lia).
  pose proof (Z.div_mod c (10 ^ k) ltac:(lia)) as Hdm.
  pose proof (Z.mod_pos_bound c (10 ^ k) Hd) as Hr.
  assert (0 ≤ c / 10 ^ k) as Hq by (apply Z.div_pos; lia).
  destruct (Z.compare_spec (2 * (c `mod` 10 ^ k)) (10 ^ k)) as [Heq|Hlt|Hgt].
  - destruct (Z.even (c / 10 ^ k)) eqn:Heven.
    + split; [lia|]. split; [nia|]. done.
    + split; [lia|]. split; [nia|]. intros _.
      rewrite Z.add_1_r, Z.even_succ, <- Z.negb_even, Heven. done.
  - split; [lia|]. split; nia.
  - split; [lia|]. split; nia.
Qed.

(** X15. [_to_paise] on an amount (-1)^s × c × 10^e with c > 0, fewer
    than 27 digits before any decimal point (c × 10^max(e,0) < 10^26) and
    e not below the smallest exponent of the context: the conversion does
    not raise; an amount with at most two decimal places (e ≥ -2) is
    converted exactly, paise = amount × 100; an amount with more decimal
    places goes to a nearest whole number of paise, the even one when two
    are equally near. *)
Theorem to_paise_is_the_nearest_paisa (amount : decimal.t) :
  let c := coefficient amount in
  let e := exponent amount in
  0 < c → c * 10 ^ Z.max e 0 < 10 ^ 26 → Etiny ≤ e →
  ∃ n, _to_paise amount = Val (if sign amount then - n else n)
    ∧ 0 ≤ n
    ∧ (- 2 ≤ e → n = c * 10 ^ (e + 2))
    ∧ (e < - 2 →
       Z.abs (2 * (c - n * 10 ^ (- e - 2))) ≤ 10 ^ (- e - 2)
       ∧ (Z.abs (2 * (c - n * 10 ^ (- e - 2))) = 10 ^ (- e - 2) → Z.even n = true)).
Proof.
  intros c e Hc Hbound Htiny.
  destruct amount as [s c' e']. cbn in c, e. subst c e. rename c' into c, e' into e.
  cbn [sign coefficient exponent].
  assert (0 < 10 ^ Z.max e 0) as Hpow by (apply Z.pow_pos_nonneg; lia).
  assert (c < 10 ^ 26) as Hc26 by nia.
  assert (e < 26) as He.
  { destruct (Z.ltb_spec e 26); [done|].
    assert (10 ^ 26 ≤ 10 ^ Z.max e 0) by (apply Z.pow_le_mono_r; lia). nia. }
  assert (ndigits (c * 100) ≤ 28) as Hnd.
  { apply ndigits_le; [lia..|]. change (10 ^ 28) with (10 ^ 26 * 100). lia. }
  pose proof (ndigits_pos (c * 100)) as Hnd1.
  assert (ndigits (c * 100) + e ≤ 28) as Hnde.
  { destruct (Z.ltb_spec e 1); [lia|].
    assert (ndigits (c * 100) ≤ 28 - e); [|lia].
    apply ndigits_le; [lia..|].
    rewrite Z.max_l in Hbound by lia.
    assert (10 ^ 28 = 10 ^ (28 - e) * 10 ^ e) as Hsplit
      by (rewrite <- Z.pow_add_r by lia; f_equal; lia).
    assert (0 < 10 ^ e) by (apply Z.pow_pos_nonneg; lia).
    change (10 ^ 28) with (10 ^ 26 * 100) in Hsplit. nia. }
  (* the product is exact *)
  assert (mul (mk s c e) (mk false 100 0) = Val (mk s (c * 100) e)) as Hmul.
  { unfold mul, _fix. cbn [sign coefficient exponent].
    rewrite xorb_false_r, Z.add_0_r.
    destruct (Z.eqb_spec (c * 100) 0); [lia|].
    unfold Etop, Etiny, Emax, Emin, prec in *.
    destruct (Z.ltb_spec (999999 - 28 + 1) (ndigits (c * 100) + e - 28)); [lia|].
    destruct (Z.ltb_spec (ndigits (c * 100) + e - 28) (-999999 - 28 + 1));
      (case_ltb; [lia|done]). }
  (* the paise before the sign *)
  set (n := if 0 <=? e then c * 100 * 10 ^ e else round_half_even (c * 100) (- e)).
  assert (0 ≤ n < 10 ^ 28) as Hn.
  { subst n. destruct (Z.leb_spec 0 e).
    - rewrite Z.max_l in Hbound by lia. change (10 ^ 28) with (10 ^ 26 * 100). nia.
    - destruct (round_half_even_spec (c * 100) (- e)) as ([? Hle] & _); [lia..|].
      split; [done|].
      assert (c * 100 / 10 ^ (- e) ≤ c * 100 / 10 ^ 1) as Hdiv.
      { apply Z.div_le_compat_l; [lia|]. split; [done|]. apply Z.pow_le_mono_r; lia. }
      change (10 ^ 1) with 10 in Hdiv.
      assert (c * 100 / 10 = c * 10) as Hten
        by (replace (c * 100) with (c * 10 * 10) by lia; apply Z.div_mul; lia).
      change (10 ^ 28) with (10 ^ 26 * 100). lia. }
  assert (quantize (mk s (c * 100) e) (mk false 1 0) = Val (mk s n 0)) as Hquant.
  { unfold quantize, adjusted. cbn [sign coefficient exponent].
    change ((Etiny <=? 0) && (0 <=? Emax)) with true. cbn [negb].
    destruct (Z.eqb_spec (c * 100) 0); [lia|].
    unfold Etop, Etiny, Emax, Emin, prec in *.
    destruct (Z.ltb_spec 999999 (e + ndigits (c * 100) - 1)); [lia|].
    destruct (Z.ltb_spec 28 (e + ndigits (c * 100) - 1 - 0 + 1)); [lia|].
    assert (_rescale (mk s (c * 100) e) 0 = mk s n 0) as ->.
    { unfold _rescale. cbn [sign coefficient exponent].
      destruct (Z.eqb_spec (c * 100) 0); [lia|]. subst n.
      rewrite Z.sub_0_r. by destruct (0 <=? e). }
    cbn [sign coefficient exponent].
    assert (ndigits n ≤ 28) as Hndn by (apply ndigits_le; lia).
    pose proof (ndigits_pos n).
    destruct (Z.ltb_spec 999999 (0 + ndigits n - 1)); [lia|].
    destruct (Z.ltb_spec 28 (ndigits n)); [lia|].
    unfold _fix. cbn [sign coefficient exponent].
    unfold Etop, Etiny, Emax, Emin, prec in *.
    destruct (Z.eqb_spec n 0) as [->|]; [done|].
    destruct (Z.ltb_spec (999999 - 28 + 1) (ndigits n + 0 - 28)); [lia|].
    destruct (Z.ltb_spec (ndigits n + 0 - 28) (-999999 - 28 + 1));
      (case_ltb; [lia|done]). }
  exists n. split.
  { unfold _to_paise. rewrite Hmul, Hquant. unfold to_int. cbn [sign coefficient exponent].
    change (0 <=? 0) with true. cbv iota. by rewrite Z.pow_0_r, Z.mul_1_r. }
  split; [lia|]. split.
  - intros He2. subst n. destruct (Z.leb_spec 0 e).
    + rewrite Z.pow_add_r by lia. change (10 ^ 2) with 100. lia.
    + unfold round_half_even.
      assert (e = - 1 ∨ e = - 2) as [-> | ->] by lia.
      * change (- - 1) with 1. change (- 1 + 2) with 1. change (10 ^ 1) with 10.
        replace (c * 100) with (c * 10 * 10) by lia.
        rewrite Z.mod_mul, Z.div_mul by lia. done.
      * change (- - 2) with 2. change (- 2 + 2) with 0. change (10 ^ 2) with 100.
        rewrite Z.mod_mul, Z.div_mul by lia. change (10 ^ 0) with 1.
        change (2 * 0 ?= 100) with Lt. cbv iota. lia.
  - intros He2. subst n. destruct (Z.leb_spec 0 e); [lia|].
    destruct (round_half_even_spec (c * 100) (- e)) as (_ & Hnear & Heven); [lia..|].
    assert (10 ^ (- e) = 100 * 10 ^ (- e - 2)) as Hsplit.
    { change 100 with (10 ^ 2). rewrite <- Z.pow_add_r by lia. f_equal. lia. }
    rewrite Hsplit in Hnear, Heven.
    split; [lia|]. intros Htie. apply Heven. lia.
Qed.

Lemma to_paise_is_the_nearest_paisa_witness :
  0 < 125 ∧ 125 * 10 ^ Z.max (- 3) 0 < 10 ^ 26 ∧ Etiny ≤ - 3
  ∧ ∃ n, _to_paise an_eighth = Val (if sign an_eighth then - n else n)
      ∧ 0 ≤ n
      ∧ (- 2 ≤ - 3 → n = 125 * 10 ^ (- 3 + 2))
      ∧ (- 3 < - 2 →
         Z.abs (2 * (125 - n * 10 ^ (- - 3 - 2))) ≤ 10 ^ (- - 3 - 2)
         ∧ (Z.abs (2 * (125 - n * 10 ^ (- - 3 - 2))) = 10 ^ (- - 3 - 2) → Z.even n = true)).
Proof.
  split; [lia|]. split; [vm_compute; reflexivity|]. split; [vm_compute; discriminate|].
  apply (to_paise_is_the_nearest_paisa an_eighth);
    [cbn; lia | vm_compute; reflexivity | vm_compute; discriminate].
Defined.

(** 100.50 is 10050 paise; 0.125 is halfway between 12 and 13 paise and
    goes to 12. *)
Example to_paise_samples :
  _to_paise hundred_fifty = Val 10050 ∧ _to_paise an_eighth = Val 12.
Proof. split; vm_compute; reflexivity. Qed.

End paise.


(** ** The webhook ingestion router: requests signed as the scheme says *)

Section stripe_signing.
Import py webhooks signature_spec stripe_sender.

Lemma plain_char_plain (c : N) :
  plain_char c = true → c ≠ 44%N ∧ c ≠ 61%N ∧ c ≠ 43%N ∧ c ≠ 45%N ∧ isspace c = false.
Proof.
  unfold plain_char, isspace. intros H.
  assert ((48 ≤ c ≤ 57) ∨ (97 ≤ c ≤ 102))%N as Hc.
  { apply orb_true_iff in H as [H|H]; apply andb_true_iff in H as [?%N.leb_le ?%N.leb_le];
      lia. }
  repeat split; try lia.
  repeat match goal with
         | |- context [(?a <=? ?b)%N] => destruct (N.leb_spec a b)
         | |- context [(?a =? ?b)%N] => destruct (N.eqb_spec a b)
         end; try reflexivity; lia.
Qed.

Lemma plain_app (a b : str) : plain (a ++ b) = plain a && plain b.
Proof. apply forallb_app. Qed.

Lemma plain_hex (bs : list Z) : plain (hex bs) = true.
Proof.
  unfold hex, plain. induction bs as [|b bs IH]; [done|].
  rewrite fmap_cons. change (mjoin (?l :: ?ls)) with (l ++ mjoin ls).
  rewrite forallb_app, IH, andb_true_r. cbn [forallb]. rewrite andb_true_r.
  assert (∀ n, 0 ≤ n < 16 → plain_char (hex_digit n) = true) as Hdigit.
  { intros n Hn. unfold plain_char, hex_digit.
    destruct (Z.ltb_spec n 10);
      repeat match goal with
             | |- context [(?a <=? ?b)%N] => destruct (N.leb_spec a b)
             end; try reflexivity; lia. }
  rewrite !Hdigit; [done| |]; apply Z.mod_pos_bound; lia.
Qed.

Lemma plain_pos_digits (fuel : nat) (n : Z) (acc : str) :
  plain acc = true → plain (pos_digits fuel n acc) = true.
Proof.
  revert n acc. induction fuel as [|fuel IH]; intros n acc Hacc; [done|].
  cbn [pos_digits].
  assert (plain (Z.to_N (48 + n `mod` 10) :: acc) = true) as Hcons.
  { unfold plain in *. cbn [forallb]. rewrite Hacc, andb_true_r.
    pose proof (Z.mod_pos_bound n 10 ltac:(lia)). unfold plain_char.
    repeat match goal with
           | |- context [(?a <=? ?b)%N] => destruct (N.leb_spec a b)
           end; try reflexivity; lia. }
  destruct (n <? 10); [done|]. by apply IH.
Qed.

Lemma plain_str_of_int (n : Z) : 0 ≤ n → plain (str_of_int n) = true.
Proof.
  intros Hn. unfold str_of_int. destruct (Z.ltb_spec n 0); [lia|].
  by apply plain_pos_digits.
Qed.

(** Splitting and stripping where there is nothing to split or strip. *)
Lemma plain_elem_of (s : str) (c : N) : plain s = true → c ∈ s → plain_char c = true.
Proof.
  unfold plain. rewrite forallb_forall. intros H Hc. by apply H, list_elem_of_In.
Qed.

Lemma split_not_nil (sep : N) (s : str) : split sep s ≠ [].
Proof.
  destruct s as [|c s]; [done|]. cbn.
  destruct (split sep s); [done|]. by destruct (c =? sep)%N.
Qed.

Lemma split_without (sep : N) (s : str) : sep ∉ s → split sep s = [s].
Proof.
  induction s as [|c s IH]; [done|]. cbn. intros [Hc Hs]%not_elem_of_cons.
  rewrite (IH Hs). by destruct (N.eqb_spec c sep); [subst|].
Qed.

Lemma split_at_first (sep : N) (a b : str) :
  sep ∉ a → split sep (a ++ sep :: b) = a :: split sep b.
Proof.
  induction a as [|c a IH]; cbn.
  - intros _. pose proof (split_not_nil sep b). rewrite N.eqb_refl.
    by destruct (split sep b).
  - intros [Hc Ha]%not_elem_of_cons. rewrite (IH Ha).
    by destruct (N.eqb_spec c sep); [subst|].
Qed.

Lemma split_once_at_first (sep : N) (a b : str) :
  sep ∉ a → split_once sep (a ++ sep :: b) = Some (a, b).
Proof.
  induction a as [|c a IH]; cbn.
  - intros _. by rewrite N.eqb_refl.
  - intros [Hc Ha]%not_elem_of_cons. rewrite (IH Ha).
    by destruct (N.eqb_spec c sep); [subst|].
Qed.

Lemma lstrip_without (s : str) :
  (∀ c, c ∈ s → isspace c = false) → lstrip s = s.
Proof.
  destruct s as [|c s]; [done|]. intros H. cbn.
  by rewrite (H c) by apply list_elem_of_here.
Qed.

Lemma strip_without (s : str) : (∀ c, c ∈ s → isspace c = false) → strip s = s.
Proof.
  intros Hno. unfold strip.
  rewrite (lstrip_without s Hno), lstrip_without, reverse_involutive; [done|].
  intros c Hc. apply Hno. by apply elem_of_reverse.
Qed.

Lemma strip_plain (s : str) : plain s = true → strip s = s.
Proof.
  intros Hs. apply strip_without. intros c Hc.
  by apply plain_char_plain, (plain_elem_of s).
Qed.

(** [int(str(n)) == n] *)
Lemma digits_pos_digits (fuel : nat) (n : Z) (tail : str) :
  0 ≤ n < 2 ^ Z.of_nat fuel → fuel ≠ 0%nat →
  ∃ k, 0 ≤ k ∧ ∀ a after_digit,
    digits a after_digit (pos_digits fuel n tail) = digits (a * 10 ^ k + n) true tail.
Proof.
  revert n tail. induction fuel as [|fuel IH]; intros n tail Hn Hfuel; [done|].
  cbn [pos_digits].
  pose proof (Z.mod_pos_bound n 10 ltac:(lia)) as Hmod.
  assert (∀ a after_digit rest,
            digits a after_digit (Z.to_N (48 + n `mod` 10) :: rest)
            = digits (10 * a + n `mod` 10) true rest) as Hdigit.
  { intros a after_digit rest. cbn [digits].
    destruct (N.leb_spec 48 (Z.to_N (48 + n `mod` 10))); [|lia].
    destruct (N.leb_spec (Z.to_N (48 + n `mod` 10)) 57); [|lia].
    cbn [andb]. do 2 f_equal. lia. }
  destruct (Z.ltb_spec n 10).
  - exists 1. split; [lia|]. intros a after_digit. rewrite Hdigit.
    rewrite Z.mod_small by lia. f_equal. change (10 ^ 1) with 10. lia.
  - assert (0 ≤ n / 10 < 2 ^ Z.of_nat fuel) as Hdiv.
    { split; [apply Z.div_pos; lia|]. apply Z.div_lt_upper_bound; [lia|].
      rewrite Nat2Z.inj_succ, Z.pow_succ_r in Hn by lia. lia. }
    assert (fuel ≠ 0%nat) as Hfuel'.
    { intros ->. cbn in Hdiv. assert (1 ≤ n / 10) by (apply Z.div_le_lower_bound; lia). lia. }
    destruct (IH (n / 10) (Z.to_N (48 + n `mod` 10) :: tail) Hdiv Hfuel') as (k & Hk & Hrun).
    exists (k + 1). split; [lia|]. intros a after_digit.
    rewrite Hrun, Hdigit. f_equal.
    rewrite Z.pow_add_r by lia. change (10 ^ 1) with 10.
    pose proof (Z.div_mod n 10 ltac:(lia)). lia.
Qed.

Lemma int_str_of_int (n : Z) : 0 ≤ n → int (str_of_int n) = Val n.
Proof.
  intros Hn. unfold int. rewrite strip_plain by by apply plain_str_of_int.
  pose proof (plain_str_of_int n Hn) as Hplain.
  assert (digits 0 false (str_of_int n) = Some n) as Hdigits.
  { unfold str_of_int. destruct (Z.ltb_spec n 0); [lia|].
    destruct (digits_pos_digits (S (Z.to_nat (Z.log2 n))) n []) as (k & _ & ->); [|done|].
    - split; [done|]. rewrite Nat2Z.inj_succ.
      destruct (decide (n = 0)) as [->|]; [by cbn|].
      rewrite Z2Nat.id by apply Z.log2_nonneg. apply Z.log2_spec. lia.
    - cbn. f_equal; lia. }
  destruct (str_of_int n) as [|c rest]; [done|].
  apply andb_true_iff in Hplain as [Hc _].
  apply plain_char_plain in Hc as (_ & _ & H43 & H45 & _).
  destruct c as [|p]; [by rewrite Hdigits|].
  do 7 (try (destruct p as [p|p|]; try (cbv beta iota zeta; by rewrite Hdigits))); done.
Qed.

Lemma lit_header_line (s : str) :
  Forall (λ c, (c < 256)%N) s → lit (header_line s) = s.
Proof.
  unfold lit, header_line. rewrite list_ascii_of_string_of_list_ascii.
  induction 1 as [|c s Hc _ IH]; [done|].
  cbn. rewrite IH. f_equal. by apply N_ascii_embedding.
Qed.

Lemma plain_below_256 (s : str) : plain s = true → Forall (λ c, (c < 256)%N) s.
Proof.
  unfold plain. rewrite forallb_forall, Forall_forall. intros H c Hc.
  specialize (H c ltac:(by apply list_elem_of_In)).
  unfold plain_char in H.
  apply orb_true_iff in H as [H|H]; apply andb_true_iff in H as [_ ?%N.leb_le]; lia.
Qed.

(** The header of the sender parses to its timestamp and its digest. *)
Lemma parse_signature_header (t v1 : str) :
  plain t = true → plain v1 = true →
  _parse_stripe_signature_header (lit "t=" ++ t ++ lit ",v1=" ++ v1)
  = Some (<[lit "v1" := v1]> (<[lit "t" := t]> ∅)).
Proof.
  intros Ht Hv1. unfold _parse_stripe_signature_header.
  assert ((44%N ∉ t) ∧ (44%N ∉ v1)) as [Hct Hcv].
  { split; intros Hin.
    - by destruct (plain_char_plain _ (plain_elem_of _ _ Ht Hin)) as (? & _).
    - by destruct (plain_char_plain _ (plain_elem_of _ _ Hv1 Hin)) as (? & _). }
  assert (split 44 (lit "t=" ++ t ++ lit ",v1=" ++ v1)
          = [lit "t" ++ 61%N :: t; lit "v1" ++ 61%N :: v1]) as Hsplit.
  { change (lit "t=" ++ t ++ lit ",v1=" ++ v1)
      with (lit "t=" ++ t ++ 44%N :: (lit "v1=" ++ v1)).
    rewrite (app_assoc (lit "t=") t), split_at_first.
    - rewrite split_without; [done|].
      rewrite elem_of_app. intros [Hin|Hin]; [|done].
      revert Hin. apply (bool_decide_unpack _). by vm_compute.
    - rewrite elem_of_app. intros [Hin|Hin]; [|done].
      revert Hin. apply (bool_decide_unpack _). by vm_compute. }
  change (lit "t=" ++ t ++ lit ",v1=" ++ v1)
    with (116%N :: 61%N :: t ++ lit ",v1=" ++ v1) at 1. cbv iota.
  change (116%N :: 61%N :: t ++ lit ",v1=" ++ v1)
    with (lit "t=" ++ t ++ lit ",v1=" ++ v1).
  rewrite Hsplit. cbn [foldl]. f_equal.
  rewrite !split_once_at_first by (apply (bool_decide_unpack _); by vm_compute).
  rewrite (strip_plain t), (strip_plain v1) by done.
  by rewrite !strip_without
    by (apply Forall_forall, (bool_decide_unpack _); by vm_compute).
Qed.

(** X16. A request signed as the scheme says is received: for any body,
    any signing secret that can be encoded and any timestamp from 0 on, the
    header ["t=<timestamp>,v1=<hex HMAC-SHA256 of timestamp.body>"] passes the
    Stripe-style endpoint whenever the clock is within the tolerance of the
    timestamp; the answer then depends on the body alone. *)
Theorem signed_stripe_request_is_received
    (T : Type) (request_json : bytes → option T)
    (cfg : settings) (secret : str) (key : bytes)
    (timestamp : Z) (ts now : float) (raw_body : bytes) :
  STRIPE_SIGNING_SECRET cfg = Some secret →
  encode_utf8 secret = Val key →
  0 ≤ timestamp →
  float_of_int timestamp = Val ts →
  float_gt_int (abs (now - ts)) (TIMESTAMP_TOLERANCE_SECONDS cfg) = false →
  stripe_webhook T request_json cfg now raw_body
    (Some (header_line (signature_header key timestamp raw_body)))
  = match request_json raw_body with
    | Some event => received event
    | None => raised 400 (lit "Invalid JSON")
    end.
Proof.
  intros Hcfg Hkey Htime Hts Htol. unfold stripe_webhook. rewrite Hcfg.
  destruct secret as [|c cs]; [done|].
  destruct (str_of_int_encodes timestamp) as [stamp Hstamp].
  pose proof (plain_str_of_int timestamp Htime) as Hplain.
  set (v1 := hmac_hexdigest key (stamp ++ blit "." ++ raw_body)).
  assert (plain v1 = true) as Hv1 by apply plain_hex.
  assert (signature_header key timestamp raw_body
          = lit "t=" ++ str_of_int timestamp ++ lit ",v1=" ++ v1) as Hheader.
  { unfold signature_header. by rewrite Hstamp. }
  assert (header_str (Some (header_line (signature_header key timestamp raw_body)))
          = lit "t=" ++ str_of_int timestamp ++ lit ",v1=" ++ v1) as Hline.
  { unfold header_str. rewrite lit_header_line; [done|]. rewrite Hheader.
    repeat apply Forall_app_2; try by apply plain_below_256.
    - apply (bool_decide_unpack _). by vm_compute.
    - apply (bool_decide_unpack _). by vm_compute. }
  assert (_verify_stripe_signature now (TIMESTAMP_TOLERANCE_SECONDS cfg) raw_body
            (header_str (Some (header_line (signature_header key timestamp raw_body))))
            (c :: cs) = Val true) as ->; [|done].
  apply verify_stripe_signature_true; [done|].
  exists (<[lit "v1" := v1]> (<[lit "t" := str_of_int timestamp]> ∅)),
    (str_of_int timestamp), v1, timestamp, ts, stamp, key.
  rewrite Hline. split; [by apply parse_signature_header|].
  split; [by rewrite lookup_insert_ne, lookup_insert_eq|].
  split; [by rewrite lookup_insert_eq|].
  split; [by apply int_str_of_int|]. done.
Qed.

End stripe_signing.

Section stripe_signing_witness.
Import py webhooks signature_spec stripe_sender.

Lemma signed_stripe_request_is_received_witness :
  STRIPE_SIGNING_SECRET stripe_settings = Some (lit "whsec")
  ∧ encode_utf8 (lit "whsec") = Val (blit "whsec")
  ∧ 0 ≤ 1700000000
  ∧ float_of_int 1700000000 = Val 1700000000%float
  ∧ float_gt_int (abs (clock - 1700000000)) (TIMESTAMP_TOLERANCE_SECONDS stripe_settings)
    = false
  ∧ stripe_webhook unit only_empty_object stripe_settings clock (blit "{}")
      (Some (header_line (signature_header (blit "whsec") 1700000000 (blit "{}"))))
    = match only_empty_object (blit "{}") with
      | Some event => received event
      | None => raised 400 (lit "Invalid JSON")
      end.
Proof.
  split; [reflexivity|]. split; [vm_compute; reflexivity|]. split; [lia|].
  split; [vm_compute; reflexivity|]. split; [vm_compute; reflexivity|].
  apply (signed_stripe_request_is_received unit only_empty_object stripe_settings
           (lit "whsec") (blit "whsec") 1700000000 1700000000%float clock (blit "{}"));
    [reflexivity | vm_compute; reflexivity | lia | vm_compute; reflexivity
    | vm_compute; reflexivity].
Defined.

End stripe_signing_witness.
